(** * ttp: timed trace points

    A shallow embedding of the ttp character device (per-cpu event storage,
    [ttp_emit], the drain [ttp_read], the command endpoint [ttp_write],
    [ttp_init] and [ttp_exit]) together with the properties of its
    specification.

    Conventions of the embedding:
    - C integers are [Z] with the wrap-around of their width written out
      ([u8], [u32], [u64]);
    - arrays are lists read with [!!] and written with [<[i:=x]>]; every
      access is bounds-checked and a NULL or out-of-bounds access yields
      [Fault] (undefined behaviour in C);
    - the module's static variables are gathered in the record
      [ttp_globals], which every operation takes and returns;
    - what the kernel supplies from outside (the executing cpu, the clocks,
      allocation results, the result of the user copy) is an explicit
      argument;
    - printk output is returned as a list of messages. *)

From Stdlib Require Import ZArith Ascii String Lia.
From stdpp Require Import base numbers option list.

Local Open Scope Z_scope.

(** ** Machine integers *)

Definition wrap (w x : Z) : Z := x mod 2 ^ w.
Definition u8 : Z -> Z := wrap 8.
Definition u32 : Z -> Z := wrap 32.
Definition u64 : Z -> Z := wrap 64.

(** ** Outcomes of operations that touch memory or loop *)

Inductive outcome (A : Type) : Type :=
| Ret (a : A)
| Fault      (* NULL or out-of-bounds access *)
| Timeout.   (* loop fuel exhausted *)
Arguments Ret {A} a.
Arguments Fault {A}.
Arguments Timeout {A}.

Definition obind {A B : Type} (m : outcome A) (k : A -> outcome B) : outcome B :=
  match m with
  | Ret a => k a
  | Fault => Fault
  | Timeout => Timeout
  end.

Notation "'do' x <- m ; k" := (obind m (fun x => k))
  (at level 10, x name, m at level 100, k at level 200, only parsing).
Notation "'do' ' p <- m ; k" := (obind m (fun p => k))
  (at level 10, p strict pattern, m at level 100, k at level 200, only parsing).

(** A possibly failing memory access. *)
Definition access {A : Type} (o : option A) : outcome A :=
  match o with
  | Some a => Ret a
  | None => Fault
  end.

(** ** Constants of the kernel headers *)

Definition ENOMEM : Z := 12.
Definition EFAULT : Z := 14.
Definition EBUSY : Z := 16.
Definition EINVAL : Z := 22.
Definition ENOSPC : Z := 28.

Definition CLOCK_REALTIME : Z := 0.
Definition CLOCK_MONOTONIC : Z := 1.
Definition NSEC_PER_SEC : Z := 1000000000.

Definition MAX_INPUT_SIZE : Z := 31.

(** size of [char tmp[128]] in [ttp_read] *)
Definition TMP_SIZE : Z := 128.

(** ** Data *)

(** [struct event] *)
Record event : Type := Event {
  ev_id : Z;        (* unsigned int id *)
  ev_abstime : Z    (* uint64_t abstime *)
}.

(** [struct ttp_storage]: the per-cpu event storage. [events] is a pointer:
    [None] is NULL, [Some evs] an allocated array of [length evs] slots. *)
Record ttp_storage : Type := Storage {
  eventcount : Z;
  events : option (list event)
}.

(** [struct fpos]: the cursor kept in [file->private_data]. *)
Record fpos : Type := Fpos {
  fpos_cpu : Z;      (* unsigned int cpu *)
  fpos_event : Z     (* uint64_t event *)
}.

(** The static variables of the module. *)
Record ttp_globals : Type := Globals {
  max_events : Z;                        (* module parameter, unsigned int *)
  ttp_enabled : bool;
  ttp_cpus : Z;                          (* unsigned int *)
  storage : option (list ttp_storage);   (* NULL, or the table *)
  ttp_clock : Z;                         (* clockid_t *)
  suppress_error : Z                     (* unsigned char *)
}.

Definition set_enabled (b : bool) (g : ttp_globals) : ttp_globals :=
  Globals (max_events g) b (ttp_cpus g) (storage g) (ttp_clock g) (suppress_error g).
Definition set_storage (t : option (list ttp_storage)) (g : ttp_globals) : ttp_globals :=
  Globals (max_events g) (ttp_enabled g) (ttp_cpus g) t (ttp_clock g) (suppress_error g).
Definition set_clock (c : Z) (g : ttp_globals) : ttp_globals :=
  Globals (max_events g) (ttp_enabled g) (ttp_cpus g) (storage g) c (suppress_error g).
Definition set_suppress (s : Z) (g : ttp_globals) : ttp_globals :=
  Globals (max_events g) (ttp_enabled g) (ttp_cpus g) (storage g) (ttp_clock g) s.
Definition set_cpus (n : Z) (g : ttp_globals) : ttp_globals :=
  Globals (max_events g) (ttp_enabled g) n (storage g) (ttp_clock g) (suppress_error g).

(** printk output, by level *)
Inductive printk : Type :=
| pr_crit (msg : string)
| pr_err (msg : string)
| pr_notice (msg : string)
| pr_info (msg : string).

(** [struct timespec64] *)
Record timespec64 : Type := Timespec {
  tv_sec : Z;
  tv_nsec : Z
}.

(** What the kernel reports to one call of [ttp_emit]: the executing cpu
    and the two clocks ([ktime_mono] is the reading of [ktime_get_ts64]
    after [timens_add_monotonic]). *)
Record emit_env : Type := EmitEnv {
  smp_processor_id : Z;
  ktime_real : timespec64;
  ktime_mono : timespec64
}.

(** ** ttp_emit *)

(** The [switch (ttp_clock)]: [None] is the [default] branch. *)
Definition read_clock (clock : Z) (env : emit_env) : option timespec64 :=
  if clock =? CLOCK_REALTIME then Some (ktime_real env)
  else if clock =? CLOCK_MONOTONIC then Some (ktime_mono env)
  else None.

Definition make_event (id : Z) (tp : timespec64) : event :=
  {| ev_id := id; ev_abstime := u64 (tv_sec tp * NSEC_PER_SEC + tv_nsec tp) |}.

Definition ttp_emit (g : ttp_globals) (env : emit_env) (id : Z)
  : outcome (ttp_globals * list printk) :=
  if negb (ttp_enabled g) then Ret (g, [])
  else
    match read_clock (ttp_clock g) env with
    | None => Ret (g, [pr_err "tpp: FATAL: unknown clock"])
    | Some tp =>
      let ev := make_event id tp in
      let cpu_id := smp_processor_id env in
      if ttp_cpus g <=? cpu_id then Ret (g, [pr_crit "CPU id"])
      else
        do tbl <- access (storage g);
        do stor <- access (tbl !! Z.to_nat cpu_id);
        if max_events g <=? eventcount stor then
          let logged :=
            if suppress_error g =? 0 then [pr_err "Max Events reached"] else [] in
          Ret (set_suppress (u8 (suppress_error g + 1)) g, logged)
        else
          do evs <- access (events stor);
          do _ <- access (evs !! Z.to_nat (eventcount stor));
          let stor' :=
            {| eventcount := u64 (eventcount stor + 1);
               events := Some (<[Z.to_nat (eventcount stor) := ev]> evs) |} in
          Ret (set_storage (Some (<[Z.to_nat cpu_id := stor']> tbl)) g, [])
    end.

(** A sequence of calls, each with the id it passes and what the kernel
    reports to it; the printk output is accumulated. *)
Fixpoint emit_all (g : ttp_globals) (calls : list (Z * emit_env))
  : outcome (ttp_globals * list printk) :=
  match calls with
  | [] => Ret (g, [])
  | (id, env) :: rest =>
    do '(g1, log1) <- ttp_emit g env id;
    do '(g2, log2) <- emit_all g1 rest;
    Ret (g2, log1 ++ log2)
  end.

(** The shard of cpu [c]. *)
Definition shard (g : ttp_globals) (c : Z) : option ttp_storage :=
  tbl ← storage g; tbl !! Z.to_nat c.

(** The shard of cpu [c] has room before every call of the sequence. *)
Fixpoint under_capacity (g : ttp_globals) (c : Z) (calls : list (Z * emit_env)) : Prop :=
  match calls with
  | [] => True
  | (id, env) :: rest =>
    (exists stor, shard g c = Some stor /\ eventcount stor < max_events g) /\
    match ttp_emit g env id with
    | Ret (g1, _) => under_capacity g1 c rest
    | _ => True
    end
  end.

(** ** Text: the C strings of the command endpoint and the drain line *)

Definition NUL : ascii := "000"%char.
Definition LF : ascii := "010"%char.

(** [isspace] of the kernel's ctype table: 9 to 13, 32 and 160. *)
Definition isspace (c : ascii) : bool :=
  let n := Z.of_N (N_of_ascii c) in
  ((9 <=? n) && (n <=? 13)) || (n =? 32) || (n =? 160).

(** The byte at index [i] of a buffer; past its end nothing is stored and
    the terminator is read. *)
Definition char_at (s : list ascii) (i : nat) : ascii := default NUL (s !! i).

(** [strlen]: the number of bytes before the first NUL. *)
Fixpoint strlen (s : list ascii) : nat :=
  match s with
  | [] => O
  | c :: rest => if Ascii.eqb c NUL then O else S (strlen rest)
  end.

(** The backwards scan of [strim]: [while (end >= s && isspace( *end)) end--],
    started with [n - 1] as the index of [end]; the result is the index of
    [end + 1]. *)
Fixpoint strim_scan (s : list ascii) (n : nat) : nat :=
  match n with
  | O => O
  | S m => if isspace (char_at s m) then strim_scan s m else n
  end.

(** Modelled from the spec: [strim] of lib/string.c is not among the
    sources. It writes a NUL after the last byte of the C string that is not
    white space; the pointer it returns (past the leading white space) is
    not used by [ttp_write], so only this effect on the buffer is kept. *)
Definition strim (s : list ascii) : list ascii :=
  let size := strlen s in
  if (size =? 0)%nat then s else <[strim_scan s size := NUL]> s.

(** Modelled from the spec: [strncmp] of lib/string.c is not among the
    sources. It compares at most [count] bytes and stops after a NUL; the
    result is 0, -1 or 1. *)
Fixpoint strncmp (cs ct : list ascii) (count : nat) : Z :=
  match count with
  | O => 0
  | S count' =>
    let c1 := char_at cs 0 in
    let c2 := char_at ct 0 in
    if negb (Ascii.eqb c1 c2) then
      (if (N_of_ascii c1 <? N_of_ascii c2)%N then -1 else 1)
    else if Ascii.eqb c1 NUL then 0
    else strncmp (tail cs) (tail ct) count'
  end.

(** A string literal of the source as the bytes before its terminator. *)
Definition lit (s : string) : list ascii := list_ascii_of_string s.

(** The decimal digit ['0' + d]. *)
Definition digit (d : Z) : ascii := ascii_of_N (Z.to_N (48 + d)).

(** Decimal conversion, least significant digit first, in front of [acc];
    [fuel] bounds the number of digits. *)
Fixpoint put_dec (fuel : nat) (n : Z) (acc : list ascii) : list ascii :=
  match fuel with
  | O => acc
  | S fuel' =>
    let acc' := digit (n mod 10) :: acc in
    if n / 10 =? 0 then acc' else put_dec fuel' (n / 10) acc'
  end.

(** The conversions [%u] (unsigned int) and [%llu] (unsigned long long). *)
Definition fmt_u (n : Z) : list ascii := put_dec 10 (u32 n) [].
Definition fmt_llu (n : Z) : list ascii := put_dec 20 (u64 n) [].

(** The text of the format ["%u,%u,%llu\n"]. *)
Definition format_line (id cpu abstime : Z) : list ascii :=
  fmt_u id ++ [","%char] ++ fmt_u cpu ++ [","%char] ++ fmt_llu abstime ++ [LF].

(** [snprintf(tmp, size, ...)]: at most [size - 1] bytes of the text are
    stored (and a terminator); the length of the whole text is returned. *)
Definition snprintf (size : Z) (text : list ascii) : list ascii * Z :=
  (take (Z.to_nat (size - 1)) text, Z.of_nat (length text)).

(** ** ttp_open, ttp_read *)

(** [kzalloc] of the cursor: zeroed, or [-ENOMEM]. *)
Definition ttp_open (kzalloc_ok : bool) : Z * option fpos :=
  if kzalloc_ok then (0, Some (Fpos 0 0)) else (- ENOMEM, None).

(** What one read gives back: the return value, the bytes copied to the
    caller's buffer and the cursor afterwards. [rd_slot] records which slot
    the read formatted, as (cpu, index): the [stor] and [ev] of the source
    at the call of [snprintf]; it is [None] when no record was formatted. *)
Record read_result : Type := ReadResult {
  rd_ret : Z;
  rd_out : list ascii;
  rd_fpos : fpos;
  rd_slot : option (Z * Z)
}.

(** The code from the label [again] on. Each [goto again] uses one unit of
    fuel. [copy_ok] tells whether [copy_to_user] copies everything. *)
Fixpoint ttp_read_again (fuel : nat) (g : ttp_globals) (tbl : list ttp_storage)
    (fp : fpos) (copy_ok : bool) : outcome read_result :=
  match fuel with
  | O => Timeout
  | S fuel' =>
    if fpos_cpu fp =? ttp_cpus g then Ret (ReadResult 0 [] fp None)
    else
      do stor <- access (tbl !! Z.to_nat (fpos_cpu fp));
      if fpos_event fp =? eventcount stor then
        ttp_read_again fuel' g tbl (Fpos (u32 (fpos_cpu fp + 1)) 0) copy_ok
      else
        do evs <- access (events stor);
        do ev <- access (evs !! Z.to_nat (fpos_event fp));
        let '(tmp, ret) :=
          snprintf TMP_SIZE (format_line (ev_id ev) (fpos_cpu fp) (ev_abstime ev)) in
        let fp' := Fpos (fpos_cpu fp) (u64 (fpos_event fp + 1)) in
        let slot := Some (fpos_cpu fp, fpos_event fp) in
        if copy_ok then Ret (ReadResult ret (take (Z.to_nat ret) tmp) fp' slot)
        else Ret (ReadResult (- EINVAL) [] fp' slot)
  end.

(** Fuel that covers every shard once and the final test. *)
Definition read_fuel (g : ttp_globals) : nat := S (S (Z.to_nat (ttp_cpus g))).

Definition ttp_read (g : ttp_globals) (fp : fpos) (size : Z) (copy_ok : bool)
  : outcome read_result :=
  match storage g with
  | None => Ret (ReadResult (- ENOMEM) [] fp None)
  | Some tbl =>
    if ttp_enabled g then Ret (ReadResult (- EBUSY) [] fp None)
    else if size <? TMP_SIZE then Ret (ReadResult (- ENOSPC) [] fp None)
    else ttp_read_again (read_fuel g) g tbl fp copy_ok
  end.

(** ** ttp_write *)

(** [for (i = 0; i < ttp_cpus; i++) storage[i].eventcount = 0], with [n]
    iterations left from index [i] on. *)
Fixpoint reset_loop (n : nat) (i : nat) (tbl : list ttp_storage)
  : outcome (list ttp_storage) :=
  match n with
  | O => Ret tbl
  | S n' =>
    do stor <- access (tbl !! i);
    reset_loop n' (S i) (<[i := Storage 0 (events stor)]> tbl)
  end.

(** [user] holds the [len] bytes the caller passes; [copy_ok] tells whether
    [copy_from_user] succeeds. The result is the return value, the globals
    and the printk output. *)
Definition ttp_write (g : ttp_globals) (user : list ascii) (copy_ok : bool)
  : outcome (Z * ttp_globals * list printk) :=
  match storage g with
  | None => Ret (- ENOMEM, g, [])
  | Some tbl =>
    let len := Z.min (Z.of_nat (length user)) MAX_INPUT_SIZE in
    if negb copy_ok then Ret (- EFAULT, g, [])
    else
      let input := strim (take (Z.to_nat len) user ++ [NUL]) in
      let n := Z.to_nat len in
      if strncmp input (lit "start") n =? 0 then
        if ttp_enabled g then Ret (- EBUSY, g, [])
        else Ret (len, set_enabled true g, [pr_info "ttp: Armed"])
      else if strncmp input (lit "stop") n =? 0 then
        Ret (len, set_enabled false g, [pr_info "ttp: Stopped"])
      else if strncmp input (lit "reset") n =? 0 then
        if ttp_enabled g then Ret (- EINVAL, g, [])
        else
          do tbl' <- reset_loop (Z.to_nat (ttp_cpus g)) 0 tbl;
          Ret (len, set_storage (Some tbl') g, [pr_info "ttp: Reset event storage"])
      else if strncmp input (lit "0") n =? 0 then
        if ttp_enabled g then Ret (- EBUSY, g, [])
        else Ret (len, set_clock CLOCK_REALTIME g, [pr_info "ttp: using CLOCK_REALTIME"])
      else if strncmp input (lit "1") n =? 0 then
        if ttp_enabled g then Ret (- EBUSY, g, [])
        else Ret (len, set_clock CLOCK_MONOTONIC g, [pr_info "ttp: using CLOCK_MONOTONIC"])
      else Ret (- EINVAL, g, [])
  end.

(** ** ttp_init, ttp_exit *)

(** A block of kernel memory obtained by the module. *)
Inductive block : Type :=
| TableBlock               (* the array [storage] *)
| EventsBlock (cpu : nat). (* [storage[cpu].events] *)

(** What the kernel answers during [ttp_init]. *)
Record init_env : Type := InitEnv {
  cpus_present : Z;                (* cpumask_weight(cpu_present_mask) *)
  kzalloc_ok : bool;               (* the allocation of the table *)
  kvzalloc_ok : nat -> bool;       (* the allocation of the events of a cpu *)
  misc_register : Z                (* 0, or a negative errno *)
}.

(** The state after a call of [ttp_init]: return value, globals, the blocks
    that are allocated and whether the device is registered. *)
Record init_result : Type := InitResult {
  in_ret : Z;
  in_globals : ttp_globals;
  in_live : list block;
  in_registered : bool
}.

(** The statics before [ttp_init]: zero, and [max_events] as loaded. *)
Definition ttp_statics (max_ev : Z) : ttp_globals :=
  Globals max_ev false 0 None 0 0.

Definition zero_event : event := Event 0 0.

(** The allocation loop of [ttp_init], with [n] iterations left from index
    [i] on; [inl] is the early return. *)
Fixpoint init_loop (env : init_env) (max_ev : Z) (n : nat) (i : nat)
    (tbl : list ttp_storage) (live : list block)
  : outcome (list ttp_storage * list block + list ttp_storage * list block) :=
  match n with
  | O => Ret (inr (tbl, live))
  | S n' =>
    do stor <- access (tbl !! i);
    if kvzalloc_ok env i then
      let evs := replicate (Z.to_nat max_ev) zero_event in
      init_loop env max_ev n' (S i)
        (<[i := Storage (eventcount stor) (Some evs)]> tbl)
        (live ++ [EventsBlock i])
    else Ret (inl (tbl, live))
  end.

Definition ttp_init (max_ev : Z) (env : init_env) : outcome (init_result * list printk) :=
  let g := set_cpus (cpus_present env) (ttp_statics max_ev) in
  let note := [pr_notice "ttp: allocating space for events"] in
  if negb (kzalloc_ok env) then Ret (InitResult (- ENOMEM) g [] false, note)
  else
    let tbl := replicate (Z.to_nat (ttp_cpus g)) (Storage 0 None) in
    do r <- init_loop env max_ev (Z.to_nat (ttp_cpus g)) 0 tbl [TableBlock];
    match r with
    | inl (tbl', live) =>
      Ret (InitResult (- ENOMEM) (set_storage (Some tbl') g) live false,
           note ++ [pr_crit "no mem"])
    | inr (tbl', live) =>
      let g' := set_storage (Some tbl') g in
      if negb (misc_register env =? 0) then
        Ret (InitResult (misc_register env) g' live false, note)
      else Ret (InitResult 0 g' live true, note)
    end.

Definition block_eqb (a b : block) : bool :=
  match a, b with
  | TableBlock, TableBlock => true
  | EventsBlock i, EventsBlock j => (i =? j)%nat
  | _, _ => false
  end.

(** [kfree] of a block; [kfree(NULL)] does nothing. *)
Definition kfree (b : option block) (live : list block) : list block :=
  match b with
  | None => live
  | Some b => filter (fun x => negb (block_eqb x b) = true) live
  end.

(** The loop of [ttp_exit]: [kfree(stor->events)] for every cpu. *)
Fixpoint exit_loop (n : nat) (i : nat) (tbl : list ttp_storage) (live : list block)
  : outcome (list block) :=
  match n with
  | O => Ret live
  | S n' =>
    do stor <- access (tbl !! i);
    exit_loop n' (S i) tbl
      (kfree (match events stor with Some _ => Some (EventsBlock i) | None => None end) live)
  end.

(** [ttp_exit]: the blocks still allocated afterwards. *)
Definition ttp_exit (g : ttp_globals) (live : list block) : outcome (list block) :=
  match storage g with
  | None => Ret live
  | Some tbl =>
    do live' <- exit_loop (Z.to_nat (ttp_cpus g)) 0 tbl live;
    Ret (kfree (Some TableBlock) live')
  end.

(** ** Vocabulary of the properties *)

(** A shard as [ttp_init] leaves it and the operations keep it: the array
    is allocated with [cap] slots and the count is within it. *)
Definition shard_ok (cap : Z) (stor : ttp_storage) : Prop :=
  exists evs, events stor = Some evs /\ Z.of_nat (length evs) = cap /\
              0 <= eventcount stor <= cap.

(** The globals of a loaded module whose table is [tbl]. *)
Record wf (g : ttp_globals) (tbl : list ttp_storage) : Prop := WF {
  wf_storage : storage g = Some tbl;
  wf_cpus : Z.of_nat (length tbl) = ttp_cpus g;
  wf_cpus_u32 : ttp_cpus g < 2 ^ 32;
  wf_max_u32 : 0 <= max_events g < 2 ^ 32;
  wf_shards : Forall (shard_ok (max_events g)) tbl;
  wf_clock : ttp_clock g = CLOCK_REALTIME \/ ttp_clock g = CLOCK_MONOTONIC;
  wf_suppress : 0 <= suppress_error g < 2 ^ 8
}.

(** The record a call stores: its id and the reading of the selected clock. *)
Definition stamped (clock : Z) (call : Z * emit_env) : event :=
  make_event (fst call) (default (Timespec 0 0) (read_clock clock (snd call))).

Definition recorded (clock : Z) (calls : list (Z * emit_env)) : list event :=
  map (stamped clock) calls.

(** The number of [pr_err] messages in a log. *)
Definition is_err (m : printk) : bool :=
  match m with
  | pr_err _ => true
  | _ => false
  end.

Definition count_err (log : list printk) : nat :=
  length (filter (fun m => is_err m = true) log).

(** The bytes a caller writes for the command [cmd]: the token, then any
    white space (the newline of [echo], for one). *)
Definition is_command (cmd : string) (user : list ascii) : Prop :=
  exists ws, user = lit cmd ++ ws /\ Forall (fun c => isspace c = true) ws.

(** The length [ttp_write] works with: that of the input, cut to
    [MAX_INPUT_SIZE]. *)
Definition cut_len (user : list ascii) : Z :=
  Z.min (Z.of_nat (length user)) MAX_INPUT_SIZE.

(** The lines the drain is to produce, as the specification words them:
    shard after shard in index order, and within a shard the slots below
    its count in slot order, each as ["<id>,<shard_index>,<timestamp>\n"]. *)
Definition shard_lines (c : nat) (stor : ttp_storage) : list (list ascii) :=
  map (fun ev => format_line (ev_id ev) (Z.of_nat c) (ev_abstime ev))
      (take (Z.to_nat (eventcount stor)) (default [] (events stor))).

Fixpoint lines_from (c : nat) (tbl : list ttp_storage) : list (list ascii) :=
  match tbl with
  | [] => []
  | stor :: rest => shard_lines c stor ++ lines_from (S c) rest
  end.

Definition drain_lines (tbl : list ttp_storage) : list (list ascii) := lines_from 0 tbl.

(** What is left of [drain_lines] for a cursor. *)
Definition lines_after (tbl : list ttp_storage) (fp : fpos) : list (list ascii) :=
  drop (Z.to_nat (fpos_event fp))
       (lines_from (Z.to_nat (fpos_cpu fp)) (drop (Z.to_nat (fpos_cpu fp)) tbl)).

(** A cursor as the reads of an undisturbed drain leave it: within the
    table, and within the count of its shard. *)
Definition cursor_ok (tbl : list ttp_storage) (fp : fpos) : Prop :=
  (0 <= fpos_cpu fp <= Z.of_nat (length tbl)) /\ (0 <= fpos_event fp) /\
  (forall stor, tbl !! Z.to_nat (fpos_cpu fp) = Some stor ->
                fpos_event fp <= eventcount stor).

(** Successive reads of one session: the cursor is threaded through; every
    read comes with the globals at its time, the size of the caller's
    buffer and the result of the user copy. *)
Fixpoint read_trace (fp : fpos) (reqs : list (ttp_globals * Z * bool))
  : outcome (list read_result) :=
  match reqs with
  | [] => Ret []
  | (g, size, copy_ok) :: rest =>
    do r <- ttp_read g fp size copy_ok;
    do rs <- read_trace (rd_fpos r) rest;
    Ret (r :: rs)
  end.

(** Slot positions in drain order. *)
Definition slot_lt (a b : Z * Z) : Prop :=
  fst a < fst b \/ (fst a = fst b /\ snd a < snd b).

Definition slot_le (a b : Z * Z) : Prop := a = b \/ slot_lt a b.

Definition pos (fp : fpos) : Z * Z := (fpos_cpu fp, fpos_event fp).



(** ** Concrete configurations used in the examples below *)

(** One cpu, two slots, loaded and disarmed. *)
Definition demo_env : init_env := InitEnv 1 true (fun _ => true) 0.

Definition demo_globals : ttp_globals :=
  Globals 2 false 1 (Some [Storage 0 (Some [zero_event; zero_event])]) 0 0.

(** A call on cpu 0 at wall-clock time [1 s + t ns]. *)
Definition at_time (t : Z) : emit_env := EmitEnv 0 (Timespec 1 t) (Timespec 0 t).

(** [demo_globals] armed, with both slots of its shard taken. *)
Definition full_globals : ttp_globals :=
  Globals 2 true 1
    (Some [Storage 2 (Some [Event 5 1000000010; Event 7 1000000020])]) 0 0.

(** What the loop of [ttp_init] makes of a table entry. *)
Definition alloc_shard (max_ev : Z) (stor : ttp_storage) : ttp_storage :=
  Storage (eventcount stor) (Some (replicate (Z.to_nat max_ev) zero_event)).

(** What [reset] makes of a shard. *)
Definition reset_shard (stor : ttp_storage) : ttp_storage := Storage 0 (events stor).

(** [full_globals] after the command [stop]. *)
Definition stopped_globals : ttp_globals := set_enabled false full_globals.

(** Two cpus; the allocation of the events of cpu 1 fails. *)
Definition failing_env : init_env :=
  InitEnv 2 true (fun i => negb (i =? 1)%nat) 0.

(** A session that is overtaken by [reset]: two events are recorded and
    capture is stopped; the session reads one record, the buffers are
    reset, and the session reads twice more. The result is what the last
    two reads give and the shard of cpu 0 at their time. *)
Definition reset_during_drain
  : outcome (read_result * outcome read_result * option ttp_storage) :=
  do '(_, g1, _) <- ttp_write demo_globals (lit "start") true;
  do '(g2, _) <- emit_all g1 [(5, at_time 10); (7, at_time 20)];
  do '(_, g3, _) <- ttp_write g2 (lit "stop") true;
  do r1 <- ttp_read g3 (Fpos 0 0) TMP_SIZE true;
  do '(_, g4, _) <- ttp_write g3 (lit "reset") true;
  do r2 <- ttp_read g4 (rd_fpos r1) TMP_SIZE true;
  Ret (r2, ttp_read g4 (rd_fpos r2) TMP_SIZE true, shard g4 0).

(** ** Vocabulary of the further properties *)

(** The records a shard holds: its slots below the count. *)
Definition recorded_of (stor : ttp_storage) : list event :=
  take (Z.to_nat (eventcount stor)) (default [] (events stor)).

(** One operation that changes the module: a call of [ttp_emit] or a write
    to the device. *)
Inductive op : Type :=
| OpEmit (env : emit_env) (id : Z)
| OpWrite (user : list ascii) (copy_ok : bool).

(** A sequence of operations, in any interleaving; the return values and
    the log are dropped. *)
Fixpoint run (g : ttp_globals) (ops : list op) : outcome ttp_globals :=
  match ops with
  | [] => Ret g
  | OpEmit env id :: rest =>
    do '(g1, _) <- ttp_emit g env id; run g1 rest
  | OpWrite user copy_ok :: rest =>
    do '(_, g1, _) <- ttp_write g user copy_ok; run g1 rest
  end.

(** The cpu ids the kernel hands out are not negative. *)
Definition op_ok (o : op) : Prop :=
  match o with
  | OpEmit env _ => 0 <= smp_processor_id env
  | OpWrite _ _ => True
  end.




(** What the [i]-th read of an undisturbed drain answers (return value and
    bytes output), given whether its user copy succeeds and the [i]-th
    line of the drain, if there is one. *)
Definition read_answer (copy_ok : bool) (line : option (list ascii)) : Z * list ascii :=
  match line with
  | None => (0, [])
  | Some l => if copy_ok then (Z.of_nat (length l), l) else (- EINVAL, [])
  end.

(** A byte of a plain token: neither white space nor NUL. *)
Definition plain (c : ascii) : Prop := isspace c = false /\ c <> NUL.

(** [a] is a prefix of [b]. *)
Fixpoint is_prefix (a b : list ascii) : bool :=
  match a, b with
  | [], _ => true
  | _ :: _, [] => false
  | x :: a', y :: b' => Ascii.eqb x y && is_prefix a' b'
  end.

(** The first command word, in the order [ttp_write] tries them, that the
    input is a prefix of. *)
Definition command_of (user : list ascii) : option string :=
  if is_prefix user (lit "start") then Some "start"%string
  else if is_prefix user (lit "stop") then Some "stop"%string
  else if is_prefix user (lit "reset") then Some "reset"%string
  else if is_prefix user (lit "0") then Some "0"%string
  else if is_prefix user (lit "1") then Some "1"%string
  else None.

(** What a write does apart from the number it returns on success: the
    globals and the log, and the error if there is one. *)
Definition effect (o : outcome (Z * ttp_globals * list printk))
  : outcome (option Z * ttp_globals * list printk) :=
  do '(ret, g, log) <- o;
  Ret (if ret <? 0 then Some ret else None, g, log).

(** ** tsc_read_ref (Jailhouse platform code) *)

Definition MAX_RETRIES : nat := 5.
Definition SMI_TRESHOLD : Z := 50000.
Definition ULLONG_MAX : Z := 2 ^ 64 - 1.

(** What one pass of the loop reads: [get_cycles()], then
    [acpi_pm_read_early()], then [get_cycles()] again. *)
Record tsc_sample : Type := TscSample {
  tsc_before : Z;   (* t1 *)
  pm_reading : Z;   (* the value stored to [*p] *)
  tsc_after : Z     (* t2 *)
}.

(** The loop of [tsc_read_ref] with [n] passes left from pass [i] on;
    [readings i] is what pass [i] reads and [p] the current value of [*p].
    The result is the return value and the final [*p]. *)
Fixpoint tsc_read_ref_loop (n : nat) (i : nat) (readings : nat -> tsc_sample) (p : Z)
  : Z * Z :=
  match n with
  | O => (ULLONG_MAX, p)
  | S n' =>
    let t1 := tsc_before (readings i) in
    let p' := pm_reading (readings i) in
    let t2 := tsc_after (readings i) in
    if u64 (t2 - t1) <? SMI_TRESHOLD then (t2, p')
    else tsc_read_ref_loop n' (S i) readings p'
  end.

Definition tsc_read_ref (readings : nat -> tsc_sample) (p : Z) : Z * Z :=
  tsc_read_ref_loop MAX_RETRIES 0 readings p.

(** A pass that took fewer than [SMI_TRESHOLD] cycles. *)
Definition undisturbed (s : tsc_sample) : bool :=
  u64 (tsc_after s - tsc_before s) <? SMI_TRESHOLD.

(** * Properties *)

(** ** Integers and outcomes *)

Lemma u64_small (x : Z) : 0 <= x < 2 ^ 64 -> u64 x = x.
Proof. intros H. unfold u64, wrap. apply Z.mod_small. exact H. Qed.

Lemma u32_small (x : Z) : 0 <= x < 2 ^ 32 -> u32 x = x.
Proof. intros H. unfold u32, wrap. apply Z.mod_small. exact H. Qed.

Lemma u8_range (x : Z) : 0 <= u8 x < 2 ^ 8.
Proof. unfold u8, wrap. apply Z.mod_pos_bound. lia. Qed.

Lemma access_Some {A : Type} (o : option A) (a : A) : o = Some a -> access o = Ret a.
Proof. intros ->. reflexivity. Qed.

(** ** The invariant of the loaded module *)

Lemma wf_shard g tbl (i : nat) stor :
  wf g tbl -> tbl !! i = Some stor -> shard_ok (max_events g) stor.
Proof.
  intros Hwf Hi. eapply Forall_lookup_1; [apply (wf_shards _ _ Hwf) | exact Hi].
Qed.

Lemma wf_lookup_lt g tbl (i : nat) stor :
  wf g tbl -> tbl !! i = Some stor -> Z.of_nat i < ttp_cpus g.
Proof.
  intros Hwf Hi. apply lookup_lt_Some in Hi.
  rewrite <- (wf_cpus _ _ Hwf). lia.
Qed.

Lemma wf_store g tbl (i : nat) stor' :
  wf g tbl -> shard_ok (max_events g) stor' ->
  wf (set_storage (Some (<[i := stor']> tbl)) g) (<[i := stor']> tbl).
Proof.
  intros [Hs Hc Hc32 Hm Hsh Hcl Hsu] Hok. constructor; simpl; try assumption.
  - reflexivity.
  - rewrite length_insert. exact Hc.
  - apply Forall_insert; assumption.
Qed.

Lemma wf_set_enabled g tbl b : wf g tbl -> wf (set_enabled b g) tbl.
Proof. intros [Hs Hc Hc32 Hm Hsh Hcl Hsu]. constructor; simpl; assumption. Qed.

Lemma wf_set_suppress g tbl x : wf g tbl -> wf (set_suppress (u8 x) g) tbl.
Proof.
  intros [Hs Hc Hc32 Hm Hsh Hcl Hsu]. constructor; simpl; try assumption.
  apply u8_range.
Qed.

Lemma wf_set_clock g tbl c :
  wf g tbl -> c = CLOCK_REALTIME \/ c = CLOCK_MONOTONIC -> wf (set_clock c g) tbl.
Proof. intros [Hs Hc Hc32 Hm Hsh Hcl Hsu] H. constructor; simpl; assumption. Qed.

Lemma wf_read_clock g tbl env :
  wf g tbl -> exists tp, read_clock (ttp_clock g) env = Some tp.
Proof.
  intros Hwf. destruct (wf_clock _ _ Hwf) as [H | H]; rewrite H; eexists; reflexivity.
Qed.

(** ** ttp_emit: one call *)

(** With room left in the shard of the executing cpu, the call writes the
    record at [slots[count]] and increments the count; nothing is logged. *)
Lemma ttp_emit_store g tbl env id stor evs :
  wf g tbl -> ttp_enabled g = true ->
  0 <= smp_processor_id env ->
  tbl !! Z.to_nat (smp_processor_id env) = Some stor ->
  events stor = Some evs ->
  eventcount stor < max_events g ->
  ttp_emit g env id =
    Ret (set_storage
           (Some (<[Z.to_nat (smp_processor_id env) :=
                      Storage (eventcount stor + 1)
                        (Some (<[Z.to_nat (eventcount stor) :=
                                   stamped (ttp_clock g) (id, env)]> evs))]> tbl)) g,
         []).
Proof.
  intros Hwf Hen Hc Hlk Hev Hroom.
  destruct (wf_read_clock g tbl env Hwf) as [tp Htp].
  pose proof (wf_lookup_lt _ _ _ _ Hwf Hlk) as Hlt.
  destruct (wf_shard _ _ _ _ Hwf Hlk) as (evs0 & Hev0 & Hlen & Hcnt).
  rewrite Hev in Hev0. injection Hev0 as <-.
  pose proof (wf_max_u32 _ _ Hwf) as Hmax.
  unfold ttp_emit, stamped. rewrite Hen, Htp. simpl.
  destruct (Z.leb_spec (ttp_cpus g) (smp_processor_id env)) as [Hge | _]; [lia |].
  rewrite (wf_storage _ _ Hwf). simpl. rewrite Hlk. simpl.
  destruct (Z.leb_spec (max_events g) (eventcount stor)) as [Hge | _]; [lia |].
  rewrite Hev. simpl.
  destruct (lookup_lt_is_Some_2 evs (Z.to_nat (eventcount stor))) as [e0 He0]; [lia |].
  rewrite He0. simpl. rewrite u64_small by lia. rewrite Htp. reflexivity.
Qed.

(** With the shard full the call changes nothing but the suppress counter,
    and logs exactly when that counter was 0. *)
Lemma ttp_emit_full g tbl env id stor :
  wf g tbl -> ttp_enabled g = true ->
  0 <= smp_processor_id env ->
  tbl !! Z.to_nat (smp_processor_id env) = Some stor ->
  max_events g <= eventcount stor ->
  ttp_emit g env id =
    Ret (set_suppress (u8 (suppress_error g + 1)) g,
         if suppress_error g =? 0 then [pr_err "Max Events reached"] else []).
Proof.
  intros Hwf Hen Hc Hlk Hfull.
  destruct (wf_read_clock g tbl env Hwf) as [tp Htp].
  pose proof (wf_lookup_lt _ _ _ _ Hwf Hlk) as Hlt.
  unfold ttp_emit. rewrite Hen, Htp. simpl.
  destruct (Z.leb_spec (ttp_cpus g) (smp_processor_id env)) as [Hge | _]; [lia |].
  rewrite (wf_storage _ _ Hwf). simpl. rewrite Hlk. simpl.
  destruct (Z.leb_spec (max_events g) (eventcount stor)) as [_ | Hlt']; [| lia].
  reflexivity.
Qed.

(** ** ttp_emit: sequences of calls on one cpu *)

Lemma insert_take_app {A : Type} (evs : list A) (k : nat) (e : A) :
  (k < length evs)%nat -> take (S k) (<[k := e]> evs) = take k evs ++ [e].
Proof.
  intros Hk. rewrite (take_S_r _ _ e).
  - rewrite take_insert_ge by lia. reflexivity.
  - apply list_lookup_insert_eq. exact Hk.
Qed.

(** Calls made with room left append their records behind the ones the
    shard already holds; the slots below and beyond are untouched. *)
Lemma emit_all_appends (c : Z) (calls : list (Z * emit_env)) :
  forall g tbl stor evs,
    wf g tbl -> ttp_enabled g = true -> 0 <= c ->
    tbl !! Z.to_nat c = Some stor -> events stor = Some evs ->
    Forall (fun call => smp_processor_id (snd call) = c) calls ->
    under_capacity g c calls ->
    exists g' tbl' evs',
      emit_all g calls = Ret (g', []) /\
      wf g' tbl' /\ ttp_enabled g' = true /\
      ttp_clock g' = ttp_clock g /\ max_events g' = max_events g /\
      tbl' !! Z.to_nat c =
        Some (Storage (eventcount stor + Z.of_nat (length calls)) (Some evs')) /\
      evs' = take (Z.to_nat (eventcount stor)) evs ++ recorded (ttp_clock g) calls ++
             drop (Z.to_nat (eventcount stor) + length calls) evs.
Proof.
  induction calls as [| [id env] rest IH]; intros g tbl stor evs Hwf Hen Hc Hlk Hev Hall Hcap.
  - exists g, tbl, evs. simpl. split_and!; try assumption; try reflexivity.
    + simpl. rewrite Z.add_0_r. rewrite Hlk. destruct stor; simpl in *. congruence.
    + rewrite Nat.add_0_r, take_drop. reflexivity.
  - apply Forall_cons in Hall as [Hcpu Hall]. simpl in Hcpu.
    destruct Hcap as [(stor0 & Hs0 & Hroom) Hcap].
    unfold shard in Hs0. rewrite (wf_storage _ _ Hwf) in Hs0. simpl in Hs0.
    rewrite Hlk in Hs0. injection Hs0 as <-.
    destruct (wf_shard _ _ _ _ Hwf Hlk) as (evs0 & Hev0 & Hlen & Hcnt).
    rewrite Hev in Hev0. injection Hev0 as <-.
    assert (Hstep := ttp_emit_store g tbl env id stor evs Hwf Hen).
    rewrite Hcpu in Hstep. specialize (Hstep Hc Hlk Hev Hroom).
    rewrite Hstep in Hcap.
    set (e := stamped (ttp_clock g) (id, env)) in *.
    set (k := Z.to_nat (eventcount stor)) in *.
    set (stor1 := Storage (eventcount stor + 1) (Some (<[k := e]> evs))) in *.
    set (tbl1 := <[Z.to_nat c := stor1]> tbl) in *.
    set (g1 := set_storage (Some tbl1) g) in *.
    assert (Hk : (k < length evs)%nat) by (subst k; lia).
    assert (Hok1 : shard_ok (max_events g) stor1).
    { exists (<[k := e]> evs). simpl. rewrite length_insert. repeat split; lia. }
    assert (Hwf1 : wf g1 tbl1) by (apply wf_store; assumption).
    assert (Hlk1 : tbl1 !! Z.to_nat c = Some stor1).
    { apply list_lookup_insert_eq. eapply lookup_lt_Some. exact Hlk. }
    destruct (IH g1 tbl1 stor1 (<[k := e]> evs) Hwf1 Hen Hc Hlk1 eq_refl Hall Hcap)
      as (g' & tbl' & evs' & Hrun & Hwf' & Hen' & Hcl' & Hmax' & Hlk' & Hevs').
    exists g', tbl', evs'. simpl emit_all. rewrite Hstep. simpl. rewrite Hrun. simpl.
    split_and!; try assumption; try reflexivity.
    + rewrite Hlk'. simpl. do 2 f_equal. lia.
    + rewrite Hevs'. simpl eventcount. simpl ttp_clock.
      replace (Z.to_nat (eventcount stor + 1)) with (S k) by (subst k; lia).
      rewrite insert_take_app by exact Hk.
      rewrite drop_insert_lt by lia.
      rewrite <- app_assoc. simpl. subst e.
      rewrite Nat.add_succ_r. reflexivity.
Qed.

(** With the shard full, calls on its cpu leave the whole table, the armed
    flag and the clock as they are. *)
Lemma emit_all_full (c : Z) (calls : list (Z * emit_env)) :
  forall g tbl stor,
    wf g tbl -> ttp_enabled g = true -> 0 <= c ->
    tbl !! Z.to_nat c = Some stor -> max_events g <= eventcount stor ->
    Forall (fun call => smp_processor_id (snd call) = c) calls ->
    exists g' log,
      emit_all g calls = Ret (g', log) /\ wf g' tbl /\
      storage g' = storage g /\ ttp_enabled g' = true /\
      ttp_clock g' = ttp_clock g /\ max_events g' = max_events g /\
      suppress_error g' = u8 (suppress_error g + Z.of_nat (length calls)).
Proof.
  induction calls as [| [id env] rest IH]; intros g tbl stor Hwf Hen Hc Hlk Hfull Hall.
  - exists g, []. simpl. split_and!; try assumption; try reflexivity.
    rewrite Z.add_0_r. unfold u8, wrap. symmetry. apply Z.mod_small.
    apply (wf_suppress _ _ Hwf).
  - apply Forall_cons in Hall as [Hcpu Hall]. simpl in Hcpu.
    assert (Hstep := ttp_emit_full g tbl env id stor Hwf Hen).
    rewrite Hcpu in Hstep. specialize (Hstep Hc Hlk Hfull).
    set (g1 := set_suppress (u8 (suppress_error g + 1)) g) in *.
    assert (Hwf1 : wf g1 tbl) by (apply wf_set_suppress; assumption).
    destruct (IH g1 tbl stor Hwf1 Hen Hc Hlk Hfull Hall)
      as (g' & log & Hrun & Hwf' & Hst' & Hen' & Hcl' & Hmax' & Hsup').
    eexists g', _. simpl emit_all. rewrite Hstep. simpl. rewrite Hrun. simpl.
    split_and!; try assumption; try reflexivity.
    rewrite Hsup'. simpl suppress_error. unfold u8, wrap.
    rewrite Zplus_mod_idemp_l. f_equal. simpl length. lia.
Qed.

(** C1: calls of [ttp_emit] made on one cpu while capture is armed, with the
    shard empty at the start and below capacity before each call, leave the
    count equal to the number of calls and the records in slots
    [0 .. count-1] in call order, each with the id of its call. *)
Theorem emit_sequence_in_call_order g tbl (c : Z) stor (calls : list (Z * emit_env)) :
  wf g tbl -> ttp_enabled g = true -> 0 <= c ->
  tbl !! Z.to_nat c = Some stor -> eventcount stor = 0 ->
  Forall (fun call => smp_processor_id (snd call) = c) calls ->
  under_capacity g c calls ->
  exists g' stor' evs',
    emit_all g calls = Ret (g', []) /\
    shard g' c = Some stor' /\
    eventcount stor' = Z.of_nat (length calls) /\
    events stor' = Some evs' /\
    Z.of_nat (length evs') = max_events g /\
    take (length calls) evs' = recorded (ttp_clock g) calls /\
    map ev_id (take (length calls) evs') = map fst calls.
Proof.
  intros Hwf Hen Hc Hlk Hzero Hall Hcap.
  destruct (wf_shard _ _ _ _ Hwf Hlk) as (evs & Hev & Hlen & Hcnt).
  destruct (emit_all_appends c calls g tbl stor evs Hwf Hen Hc Hlk Hev Hall Hcap)
    as (g' & tbl' & evs' & Hrun & Hwf' & Hen' & Hcl' & Hmax' & Hlk' & Hevs').
  rewrite Hzero in Hlk', Hevs'. simpl in Hlk', Hevs'.
  destruct (wf_shard _ _ _ _ Hwf' Hlk') as (evs2 & Hev2 & Hlen2 & Hcnt2).
  simpl in Hev2. injection Hev2 as <-.
  assert (Htake : take (length calls) evs' = recorded (ttp_clock g) calls).
  { rewrite Hevs'. rewrite take_app_length'; [reflexivity |].
    unfold recorded. rewrite length_map. reflexivity. }
  eexists g', _, evs'. split; [exact Hrun |].
  split; [unfold shard; rewrite (wf_storage _ _ Hwf'); exact Hlk' |].
  simpl. split_and!; try lia; try assumption; try reflexivity.
  rewrite Htake. unfold recorded. rewrite map_map. reflexivity.
Qed.

Lemma demo_armed_wf :
  wf (set_enabled true demo_globals) [Storage 0 (Some [zero_event; zero_event])].
Proof.
  constructor; simpl; try reflexivity; try lia.
  - repeat constructor. exists [zero_event; zero_event]. simpl. repeat split; lia.
  - left. reflexivity.
Qed.

Lemma emit_sequence_in_call_order_witness :
  exists g' stor' evs',
    emit_all (set_enabled true demo_globals) [(5, at_time 10); (7, at_time 20)]
      = Ret (g', []) /\
    shard g' 0 = Some stor' /\
    eventcount stor' = 2 /\
    events stor' = Some evs' /\
    Z.of_nat (length evs') = 2 /\
    take 2 evs' = [Event 5 1000000010; Event 7 1000000020] /\
    map ev_id (take 2 evs') = [5; 7].
Proof.
  apply (emit_sequence_in_call_order (set_enabled true demo_globals)
           [Storage 0 (Some [zero_event; zero_event])] 0
           (Storage 0 (Some [zero_event; zero_event]))
           [(5, at_time 10); (7, at_time 20)]).
  - exact demo_armed_wf.
  - reflexivity.
  - lia.
  - reflexivity.
  - reflexivity.
  - repeat constructor.
  - vm_compute. split.
    + eexists. split; reflexivity.
    + split; [| exact I]. eexists. split; reflexivity.
Defined.

(** ** Dropped events and the drop warning *)

(** While the suppress counter stays between 1 and 255, drops log nothing. *)
Lemma emit_all_full_silent (c : Z) (calls : list (Z * emit_env)) :
  forall g tbl stor,
    wf g tbl -> ttp_enabled g = true -> 0 <= c ->
    tbl !! Z.to_nat c = Some stor -> max_events g <= eventcount stor ->
    Forall (fun call => smp_processor_id (snd call) = c) calls ->
    1 <= suppress_error g -> suppress_error g + Z.of_nat (length calls) <= 256 ->
    exists g', emit_all g calls = Ret (g', []) /\ storage g' = storage g.
Proof.
  induction calls as [| [id env] rest IH];
    intros g tbl stor Hwf Hen Hc Hlk Hfull Hall Hs Hn.
  - exists g. split; reflexivity.
  - apply Forall_cons in Hall as [Hcpu Hall]. simpl in Hcpu.
    assert (Hstep := ttp_emit_full g tbl env id stor Hwf Hen).
    rewrite Hcpu in Hstep. specialize (Hstep Hc Hlk Hfull).
    destruct (Z.eqb_spec (suppress_error g) 0) as [Hz | _]; [lia |].
    simpl length in Hn.
    set (g1 := set_suppress (u8 (suppress_error g + 1)) g) in *.
    assert (Hwf1 : wf g1 tbl) by (apply wf_set_suppress; assumption).
    destruct rest as [| call rest].
    { exists g1. simpl emit_all. rewrite Hstep. simpl. split; reflexivity. }
    simpl length in Hn, IH.
    pose proof (wf_suppress _ _ Hwf) as Hrange.
    assert (Hs1 : suppress_error g1 = suppress_error g + 1).
    { simpl. unfold u8, wrap. apply Z.mod_small. lia. }
    destruct (IH g1 tbl stor Hwf1 Hen Hc Hlk Hfull Hall) as (g' & Hrun & Hst); try lia.
    exists g'. remember (call :: rest) as rest' eqn:Hrest.
    simpl emit_all. rewrite Hstep. simpl. rewrite Hrun. simpl.
    split; [reflexivity | exact Hst].
Qed.

(** X10: up to 256 drops in a row on a full shard, counted from a suppress
    counter of 0, log the warning exactly once, at the first of them, and
    leave the table as it is. *)
Lemma emit_all_full_first (c : Z) (id : Z) (env : emit_env) (calls : list (Z * emit_env)) :
  forall g tbl stor,
    wf g tbl -> ttp_enabled g = true -> 0 <= c ->
    tbl !! Z.to_nat c = Some stor -> max_events g <= eventcount stor ->
    Forall (fun call => smp_processor_id (snd call) = c) ((id, env) :: calls) ->
    suppress_error g = 0 -> Z.of_nat (length calls) < 256 ->
    exists g', emit_all g ((id, env) :: calls) = Ret (g', [pr_err "Max Events reached"]) /\
               storage g' = storage g.
Proof.
  intros g tbl stor Hwf Hen Hc Hlk Hfull Hall Hs Hn.
  apply Forall_cons in Hall as [Hcpu Hall]. simpl in Hcpu.
  assert (Hstep := ttp_emit_full g tbl env id stor Hwf Hen).
  rewrite Hcpu in Hstep. specialize (Hstep Hc Hlk Hfull).
  rewrite Hs in Hstep. simpl in Hstep. change (0 + 1) with 1 in Hstep.
  set (g1 := set_suppress (u8 1) g) in *.
  assert (Hwf1 : wf g1 tbl) by (apply wf_set_suppress; assumption).
  destruct (emit_all_full_silent c calls g1 tbl stor Hwf1 Hen Hc Hlk Hfull Hall)
    as (g' & Hrun & Hst).
  - simpl. vm_compute. discriminate.
  - simpl. change (u8 1) with 1. lia.
  - exists g'. simpl emit_all. rewrite Hstep. simpl. rewrite Hrun. simpl.
    split; [reflexivity | exact Hst].
Qed.

Example full_globals_reached :
  exists g1,
    ttp_write demo_globals (lit "start") true = Ret (5, g1, [pr_info "ttp: Armed"]) /\
    emit_all g1 [(5, at_time 10); (7, at_time 20)] = Ret (full_globals, []).
Proof. eexists. split; reflexivity. Qed.

(** C2: once the shard is full, 257 further calls leave the count and the
    slots as they are, but the drop warning is logged twice: at the first
    drop and again at the 257th, when the 8-bit suppress counter is back
    at 0. *)
Theorem drop_warning_logged_again :
  exists g' log,
    emit_all full_globals (replicate 257 (9, at_time 30)) = Ret (g', log) /\
    storage g' = storage full_globals /\
    suppress_error g' = 1 /\
    count_err log = 2%nat.
Proof. eexists _, _. split; [vm_compute; reflexivity |]. split_and!; reflexivity. Qed.

(** ** The drain line *)

Lemma put_dec_length (fuel : nat) :
  forall n acc, (length (put_dec fuel n acc) <= fuel + length acc)%nat.
Proof.
  induction fuel as [| fuel IH]; intros n acc; simpl.
  - lia.
  - destruct (n / 10 =? 0).
    + simpl. lia.
    + etransitivity; [apply IH |]. simpl. lia.
Qed.

Lemma format_line_length (id cpu abstime : Z) :
  (0 < length (format_line id cpu abstime) <= 43)%nat.
Proof.
  unfold format_line, fmt_u, fmt_llu. rewrite !length_app. simpl.
  pose proof (put_dec_length 10 (u32 id) []) as H1.
  pose proof (put_dec_length 10 (u32 cpu) []) as H2.
  pose proof (put_dec_length 20 (u64 abstime) []) as H3.
  simpl in H1, H2, H3. lia.
Qed.

(** A line always fits [tmp]: [snprintf] stores all of it, and the bytes
    handed to [copy_to_user] are the line. *)
Lemma snprintf_line (id cpu abstime : Z) :
  let line := format_line id cpu abstime in
  snprintf TMP_SIZE line = (line, Z.of_nat (length line)) /\
  take (Z.to_nat (Z.of_nat (length line))) line = line.
Proof.
  intros line. pose proof (format_line_length id cpu abstime) as Hlen.
  fold line in Hlen. unfold snprintf, TMP_SIZE. split.
  - f_equal. apply take_ge. lia.
  - apply take_ge. lia.
Qed.







Example format_line_5_0 :
  format_line 5 0 1000000010 = lit "5,0,1000000010" ++ [LF].
Proof. reflexivity. Qed.

Example format_line_max :
  format_line (2 ^ 32 - 1) 3 (2 ^ 64 - 1) = lit "4294967295,3,18446744073709551615" ++ [LF].
Proof. reflexivity. Qed.

(** ** The drain: one read *)

Lemma shard_lines_length (c : nat) stor cap :
  shard_ok cap stor -> length (shard_lines c stor) = Z.to_nat (eventcount stor).
Proof.
  intros (evs & Hev & Hlen & Hcnt). unfold shard_lines. rewrite Hev. simpl.
  rewrite length_map, length_take. lia.
Qed.

Lemma shard_lines_lookup (c : nat) stor evs (e : nat) ev :
  events stor = Some evs -> evs !! e = Some ev -> (e < Z.to_nat (eventcount stor))%nat ->
  shard_lines c stor !! e = Some (format_line (ev_id ev) (Z.of_nat c) (ev_abstime ev)).
Proof.
  intros Hev Hlk He. unfold shard_lines. rewrite Hev. simpl.
  rewrite list_lookup_fmap, lookup_take_lt by exact He. rewrite Hlk. reflexivity.
Qed.

Lemma lines_from_drop (tbl : list ttp_storage) (c : nat) stor :
  tbl !! c = Some stor ->
  lines_from c (drop c tbl) = shard_lines c stor ++ lines_from (S c) (drop (S c) tbl).
Proof.
  intros Hlk. rewrite (drop_S _ _ _ Hlk). reflexivity.
Qed.

(** Past the last shard nothing is left. *)
Lemma lines_after_end (tbl : list ttp_storage) fp :
  fpos_cpu fp = Z.of_nat (length tbl) -> lines_after tbl fp = [].
Proof.
  intros Hc. unfold lines_after. rewrite (drop_ge tbl) by lia. simpl. apply drop_nil.
Qed.

(** At the count of a shard the cursor stands for the start of the next. *)
Lemma lines_after_next (tbl : list ttp_storage) cap (c : Z) stor :
  0 <= c -> tbl !! Z.to_nat c = Some stor -> shard_ok cap stor ->
  lines_after tbl (Fpos c (eventcount stor)) = lines_after tbl (Fpos (c + 1) 0).
Proof.
  intros Hc Hlk Hok. unfold lines_after. simpl.
  rewrite (lines_from_drop _ _ _ Hlk).
  rewrite drop_app_length' by (symmetry; eapply shard_lines_length; exact Hok).
  replace (Z.to_nat (c + 1)) with (S (Z.to_nat c)) by lia. reflexivity.
Qed.

(** Below the count the next line is the one of the slot under the cursor. *)
Lemma lines_after_here (tbl : list ttp_storage) (c e : Z) stor evs ev :
  0 <= c -> 0 <= e -> tbl !! Z.to_nat c = Some stor ->
  events stor = Some evs -> evs !! Z.to_nat e = Some ev -> e < eventcount stor ->
  lines_after tbl (Fpos c e) =
    format_line (ev_id ev) c (ev_abstime ev) :: lines_after tbl (Fpos c (e + 1)).
Proof.
  intros Hc He Hlk Hev Hslot Hlt. unfold lines_after. simpl.
  rewrite (lines_from_drop _ _ _ Hlk).
  replace (Z.to_nat (e + 1)) with (S (Z.to_nat e)) by lia.
  erewrite drop_S; [reflexivity |].
  rewrite lookup_app_l.
  - rewrite (shard_lines_lookup _ _ _ _ _ Hev Hslot) by lia.
    rewrite Z2Nat.id by lia. reflexivity.
  - apply lookup_lt_is_Some. eexists.
    apply (shard_lines_lookup _ _ _ _ _ Hev Hslot). lia.
Qed.

(** One pass of the code behind [again]: it terminates, and it consumes
    the next line of the drain, which it returns when the user copy
    succeeds; with no line left it returns zero bytes. *)
Lemma ttp_read_again_next g tbl (copy_ok : bool) :
  wf g tbl ->
  forall (fuel : nat) fp,
    cursor_ok tbl fp -> ttp_cpus g - fpos_cpu fp < Z.of_nat fuel ->
    exists r,
      ttp_read_again fuel g tbl fp copy_ok = Ret r /\ cursor_ok tbl (rd_fpos r) /\
      match lines_after tbl fp with
      | [] => rd_ret r = 0 /\ rd_out r = [] /\ lines_after tbl (rd_fpos r) = [] /\
              rd_slot r = None
      | line :: rest =>
          rd_ret r = (if copy_ok then Z.of_nat (length line) else - EINVAL) /\
          rd_out r = (if copy_ok then line else []) /\
          lines_after tbl (rd_fpos r) = rest /\
          is_Some (rd_slot r)
      end.
Proof.
  intros Hwf. pose proof (wf_cpus _ _ Hwf) as Hcpus.
  pose proof (wf_cpus_u32 _ _ Hwf) as Hc32.
  pose proof (wf_max_u32 _ _ Hwf) as Hmax.
  induction fuel as [| fuel IH]; intros [c e] (Hc & He & Hcnt) Hfuel; simpl in *.
  - lia.
  - destruct (Z.eqb_spec c (ttp_cpus g)) as [Heq | Hne].
    + eexists. split; [reflexivity |]. simpl.
      split; [exact (conj Hc (conj He Hcnt)) |].
      rewrite lines_after_end by (simpl; lia). repeat split; reflexivity.
    + destruct (lookup_lt_is_Some_2 tbl (Z.to_nat c)) as [stor Hlk]; [lia |].
      destruct (wf_shard _ _ _ _ Hwf Hlk) as (evs & Hev & Hlen & Hrange).
      pose proof (wf_shard _ _ _ _ Hwf Hlk) as Hok.
      specialize (Hcnt stor Hlk). rewrite Hlk. simpl.
      destruct (Z.eqb_spec e (eventcount stor)) as [Hfull | Hmore].
      * rewrite u32_small by lia. subst e.
        rewrite (lines_after_next tbl _ c stor (proj1 Hc) Hlk Hok).
        apply IH; [| simpl; lia].
        unfold cursor_ok. simpl. split; [lia |]. split; [lia |].
        intros stor' Hlk'. destruct (wf_shard _ _ _ _ Hwf Hlk') as (? & ? & ? & ?). lia.
      * rewrite Hev. simpl.
        destruct (lookup_lt_is_Some_2 evs (Z.to_nat e)) as [ev Hslot]; [lia |].
        rewrite Hslot. simpl.
        destruct (snprintf_line (ev_id ev) c (ev_abstime ev)) as [Hsn Htk].
        unfold snprintf in Hsn. injection Hsn as Hsn. simpl in Hsn, Htk.
        rewrite Hsn, Htk.
        rewrite u64_small by lia.
        rewrite (lines_after_here tbl c e stor evs ev) by (assumption || lia).
        destruct copy_ok; (eexists; split; [reflexivity |]; simpl; split;
          [| split_and!; first [reflexivity | eexists; reflexivity]]).
        all: unfold cursor_ok; simpl; (split; [lia |]); (split; [lia |]);
          intros stor' Hlk'; rewrite Hlk in Hlk'; injection Hlk' as <-; lia.
Qed.

(** A read of a disarmed module with a large enough buffer moves the cursor
    past the next line of the drain and returns it if the user copy
    succeeds; with nothing left it returns zero bytes. *)
Lemma ttp_read_next g tbl fp size (copy_ok : bool) :
  wf g tbl -> ttp_enabled g = false -> TMP_SIZE <= size -> cursor_ok tbl fp ->
  exists r,
    ttp_read g fp size copy_ok = Ret r /\ cursor_ok tbl (rd_fpos r) /\
    match lines_after tbl fp with
    | [] => rd_ret r = 0 /\ rd_out r = [] /\ lines_after tbl (rd_fpos r) = [] /\
            rd_slot r = None
    | line :: rest =>
        rd_ret r = (if copy_ok then Z.of_nat (length line) else - EINVAL) /\
        rd_out r = (if copy_ok then line else []) /\
        lines_after tbl (rd_fpos r) = rest /\
        is_Some (rd_slot r)
    end.
Proof.
  intros Hwf Hdis Hsize Hcur. unfold ttp_read.
  rewrite (wf_storage _ _ Hwf), Hdis.
  destruct (Z.ltb_spec size TMP_SIZE) as [Hlt | _]; [lia |].
  apply ttp_read_again_next; [exact Hwf | exact Hcur |].
  unfold read_fuel. destruct Hcur as ((H0 & _) & _).
  pose proof (wf_cpus _ _ Hwf). lia.
Qed.

(** ** The drain: a whole session *)

Lemma cursor_ok_start g tbl : wf g tbl -> cursor_ok tbl (Fpos 0 0).
Proof.
  intros Hwf. unfold cursor_ok. simpl. split; [lia |]. split; [lia |].
  intros stor Hlk. destruct (wf_shard _ _ _ _ Hwf Hlk) as (? & ? & ? & ?). lia.
Qed.

Lemma lines_after_start (tbl : list ttp_storage) :
  lines_after tbl (Fpos 0 0) = drain_lines tbl.
Proof. reflexivity. Qed.

(** Reads of an undisturbed, disarmed module continue the drain from any
    cursor: line after line, then zero bytes for good. *)
Lemma drain_from g tbl (sizes : list Z) :
  wf g tbl -> ttp_enabled g = false ->
  Forall (fun size => TMP_SIZE <= size) sizes ->
  forall fp, cursor_ok tbl fp ->
    exists rs,
      read_trace fp (map (fun size => (g, size, true)) sizes) = Ret rs /\
      map rd_out rs =
        take (length sizes) (lines_after tbl fp) ++
        replicate (length sizes - length (lines_after tbl fp)) [] /\
      map rd_ret rs = map (fun out => Z.of_nat (length out)) (map rd_out rs).
Proof.
  intros Hwf Hdis Hsizes. induction Hsizes as [| size sizes Hsize Hsizes IH]; intros fp Hcur.
  - exists []. split_and!; reflexivity.
  - destruct (ttp_read_next g tbl fp size true Hwf Hdis Hsize Hcur)
      as (r & Hrd & Hcur' & Hnext).
    destruct (IH (rd_fpos r) Hcur') as (rs & Hrun & Hout & Hret).
    exists (r :: rs). simpl read_trace. rewrite Hrd. simpl. rewrite Hrun. simpl.
    split; [reflexivity |]. rewrite Hout, Hret, Hout.
    destruct (lines_after tbl fp) as [| line rest].
    + destruct Hnext as (Hr & Ho & Hl & _). rewrite Hr, Ho, Hl.
      rewrite take_nil. simpl. rewrite !Nat.sub_0_r. split; reflexivity.
    + destruct Hnext as (Hr & Ho & Hl & _). rewrite Hr, Ho, Hl. simpl.
      split; reflexivity.
Qed.

(** C3: in a session opened on a disarmed module, successive reads return
    the records shard by shard in index order and slot by slot below the
    count, one line ["%u,%u,%llu\n"] per read with its length as the return
    value; empty shards are passed over, and once all shards are exhausted
    every further read returns zero bytes. *)
Theorem drain_enumerates g tbl (sizes : list Z) :
  wf g tbl -> ttp_enabled g = false ->
  Forall (fun size => TMP_SIZE <= size) sizes ->
  exists rs,
    read_trace (Fpos 0 0) (map (fun size => (g, size, true)) sizes) = Ret rs /\
    map rd_out rs =
      take (length sizes) (drain_lines tbl) ++
      replicate (length sizes - length (drain_lines tbl)) [] /\
    map rd_ret rs = map (fun out => Z.of_nat (length out)) (map rd_out rs).
Proof.
  intros Hwf Hdis Hsizes. rewrite <- lines_after_start.
  apply (drain_from g tbl sizes Hwf Hdis Hsizes). eapply cursor_ok_start. exact Hwf.
Qed.

Lemma stopped_globals_wf :
  wf stopped_globals [Storage 2 (Some [Event 5 1000000010; Event 7 1000000020])].
Proof.
  constructor; simpl; try reflexivity; try lia.
  - repeat constructor. exists [Event 5 1000000010; Event 7 1000000020].
    simpl. repeat split; lia.
  - left. reflexivity.
Qed.

Lemma drain_enumerates_witness :
  exists rs,
    read_trace (Fpos 0 0)
      [(stopped_globals, 128, true); (stopped_globals, 4096, true);
       (stopped_globals, 128, true); (stopped_globals, 128, true)] = Ret rs /\
    map rd_out rs =
      [lit "5,0,1000000010" ++ [LF]; lit "7,0,1000000020" ++ [LF]; []; []] /\
    map rd_ret rs = map (fun out => Z.of_nat (length out)) (map rd_out rs).
Proof.
  apply (drain_enumerates stopped_globals
           [Storage 2 (Some [Event 5 1000000010; Event 7 1000000020])]
           [128; 4096; 128; 128]).
  - exact stopped_globals_wf.
  - reflexivity.
  - repeat constructor; unfold TMP_SIZE; lia.
Defined.

(** Every line of the drain is a record line of at most 43 bytes. *)
Lemma lines_from_bounded (tbl : list ttp_storage) :
  forall c, Forall (fun line => (0 < length line <= 43)%nat) (lines_from c tbl).
Proof.
  induction tbl as [| stor tbl IH]; intros c; simpl.
  - constructor.
  - apply Forall_app. split; [| apply IH].
    unfold shard_lines. apply Forall_fmap, Forall_forall. intros ev _.
    apply format_line_length.
Qed.

(** ** The command buffer: strim and strncmp *)

Lemma isspace_not_NUL (c : ascii) : isspace c = true -> c <> NUL.
Proof. intros H ->. discriminate H. Qed.

Lemma strlen_app (a r : list ascii) :
  Forall (fun c => c <> NUL) a -> strlen (a ++ NUL :: r) = length a.
Proof.
  induction 1 as [| c a Hc Ha IH]; simpl.
  - reflexivity.
  - destruct (Ascii.eqb_spec c NUL) as [-> | _]; [contradiction |].
    rewrite IH. reflexivity.
Qed.

Lemma strim_scan_spaces (s : list ascii) (n k : nat) :
  (forall i, (n <= i < n + k)%nat -> isspace (char_at s i) = true) ->
  strim_scan s (n + k) = strim_scan s n.
Proof.
  induction k as [| k IH]; intros Hsp.
  - rewrite Nat.add_0_r. reflexivity.
  - rewrite Nat.add_succ_r. simpl. rewrite Hsp by lia.
    apply IH. intros i Hi. apply Hsp. lia.
Qed.

(** [strim] of a token followed by white space cuts the buffer right
    behind the token. *)
Lemma strim_token (pre : list ascii) (last : ascii) (ws : list ascii) :
  Forall (fun c => c <> NUL) (pre ++ [last]) -> isspace last = false ->
  Forall (fun c => isspace c = true) ws ->
  strim ((pre ++ [last]) ++ ws ++ [NUL]) =
    (pre ++ [last]) ++ NUL :: drop 1 (ws ++ [NUL]).
Proof.
  intros Htok Hlast Hws. set (tok := pre ++ [last]) in *.
  assert (Hlen : length tok = S (length pre)).
  { subst tok. rewrite length_app. simpl. lia. }
  unfold strim.
  assert (Hsz : strlen (tok ++ ws ++ [NUL]) = (length tok + length ws)%nat).
  { replace (tok ++ ws ++ [NUL]) with ((tok ++ ws) ++ NUL :: []) by (rewrite <- app_assoc; reflexivity).
    rewrite strlen_app, length_app; [reflexivity |].
    apply Forall_app. split; [exact Htok |].
    eapply Forall_impl; [exact Hws |]. intros c. apply isspace_not_NUL. }
  rewrite Hsz. destruct (Nat.eqb_spec (length tok + length ws) 0) as [H0 | _]; [lia |].
  rewrite strim_scan_spaces.
  - rewrite Hlen. simpl strim_scan.
    assert (Hch : char_at (tok ++ ws ++ [NUL]) (length pre) = last).
    { unfold char_at. subst tok. rewrite <- app_assoc.
      rewrite lookup_app_r by lia. rewrite Nat.sub_diag. reflexivity. }
    rewrite Hch, Hlast. rewrite <- Hlen.
    replace (length tok) with (length tok + 0)%nat at 1 by lia.
    rewrite insert_app_r. f_equal. destruct ws; reflexivity.
  - intros i Hi. unfold char_at.
    rewrite lookup_app_r by lia. rewrite lookup_app_l by lia.
    destruct (lookup_lt_is_Some_2 ws (i - length tok)) as [c Hc]; [lia |].
    rewrite Hc. simpl. eapply Forall_lookup_1 in Hws; [exact Hws | exact Hc].
Qed.

(** What [ttp_write] compares for a command: the token, cut off by a NUL,
    and a count that covers the token. *)
Lemma command_buffer (pre : list ascii) (last : ascii) (cmd : string) (user : list ascii) :
  lit cmd = pre ++ [last] ->
  Forall (fun c => c <> NUL) (lit cmd) -> isspace last = false ->
  Z.of_nat (length (lit cmd)) <= MAX_INPUT_SIZE ->
  is_command cmd user ->
  exists tl,
    strim (take (Z.to_nat (cut_len user)) user ++ [NUL]) = lit cmd ++ NUL :: tl /\
    (length (lit cmd) <= Z.to_nat (cut_len user))%nat.
Proof.
  intros Hsplit Hnn Hlast Hshort (ws & -> & Hws).
  set (n := Z.to_nat (cut_len (lit cmd ++ ws))).
  assert (Hn : (length (lit cmd) <= n)%nat).
  { subst n. unfold cut_len. rewrite length_app. lia. }
  exists (drop 1 (take (n - length (lit cmd)) ws ++ [NUL])). split; [| exact Hn].
  rewrite take_app, (take_ge (lit cmd)) by exact Hn.
  rewrite <- app_assoc. rewrite Hsplit in *.
  apply strim_token; [exact Hnn | exact Hlast |].
  apply Forall_take. exact Hws.
Qed.

(** ** ttp_write: the five commands *)

Lemma tokens_fit :
  forall cmd, In cmd ["start"; "stop"; "reset"; "0"; "1"]%string ->
    exists pre last,
      lit cmd = pre ++ [last] /\ Forall (fun c => c <> NUL) (lit cmd) /\
      isspace last = false /\ Z.of_nat (length (lit cmd)) <= MAX_INPUT_SIZE.
Proof.
  intros cmd Hin. simpl in Hin.
  destruct Hin as [<- | [<- | [<- | [<- | [<- | []]]]]].
  - exists (lit "star"), "t"%char. split_and!; try reflexivity.
    + repeat constructor; discriminate.
    + unfold MAX_INPUT_SIZE. simpl. lia.
  - exists (lit "sto"), "p"%char. split_and!; try reflexivity.
    + repeat constructor; discriminate.
    + unfold MAX_INPUT_SIZE. simpl. lia.
  - exists (lit "rese"), "t"%char. split_and!; try reflexivity.
    + repeat constructor; discriminate.
    + unfold MAX_INPUT_SIZE. simpl. lia.
  - exists [], "0"%char. split_and!; try reflexivity.
    + repeat constructor; discriminate.
    + unfold MAX_INPUT_SIZE. simpl. lia.
  - exists [], "1"%char. split_and!; try reflexivity.
    + repeat constructor; discriminate.
    + unfold MAX_INPUT_SIZE. simpl. lia.
Qed.

Lemma strncmp_end (tl : list ascii) (n : nat) : strncmp (NUL :: tl) [] n = 0.
Proof. destruct n; reflexivity. Qed.

(** The setup shared by the command lemmas: unfold [ttp_write] up to the
    chain of comparisons, on the trimmed buffer of the command. *)
Ltac command_chain cmd user Hs Hcmd n Hn :=
  let pre := fresh "pre" in
  let last := fresh "last" in
  let H1 := fresh in
  let H2 := fresh in
  let H3 := fresh in
  let H4 := fresh in
  let tl := fresh "tl" in
  let Hbuf := fresh "Hbuf" in
  destruct (tokens_fit cmd) as (pre & last & H1 & H2 & H3 & H4); [simpl; tauto |];
  destruct (command_buffer pre last cmd user H1 H2 H3 H4 Hcmd) as (tl & Hbuf & Hn);
  unfold ttp_write; rewrite Hs; cbv zeta; fold (cut_len user); rewrite Hbuf;
  simpl negb; cbv iota;
  clear Hbuf H1 H2 H3 H4;
  generalize dependent (Z.to_nat (cut_len user)); intros n Hn; simpl in Hn.

Lemma ttp_write_start g tbl user :
  storage g = Some tbl -> is_command "start" user ->
  ttp_write g user true =
    if ttp_enabled g then Ret (- EBUSY, g, [])
    else Ret (cut_len user, set_enabled true g, [pr_info "ttp: Armed"]).
Proof.
  intros Hs Hcmd.
  command_chain "start"%string user Hs Hcmd n Hn.
  do 5 (destruct n as [| n]; [lia |]).
  simpl. rewrite strncmp_end. reflexivity.
Qed.

Lemma ttp_write_stop g tbl user :
  storage g = Some tbl -> is_command "stop" user ->
  ttp_write g user true =
    Ret (cut_len user, set_enabled false g, [pr_info "ttp: Stopped"]).
Proof.
  intros Hs Hcmd.
  command_chain "stop"%string user Hs Hcmd n Hn.
  do 4 (destruct n as [| n]; [lia |]).
  simpl. rewrite strncmp_end. reflexivity.
Qed.

Lemma ttp_write_reset g tbl user :
  storage g = Some tbl -> is_command "reset" user ->
  ttp_write g user true =
    if ttp_enabled g then Ret (- EINVAL, g, [])
    else
      do tbl' <- reset_loop (Z.to_nat (ttp_cpus g)) 0 tbl;
      Ret (cut_len user, set_storage (Some tbl') g, [pr_info "ttp: Reset event storage"]).
Proof.
  intros Hs Hcmd.
  command_chain "reset"%string user Hs Hcmd n Hn.
  do 5 (destruct n as [| n]; [lia |]).
  simpl. rewrite strncmp_end. reflexivity.
Qed.

Lemma ttp_write_clock0 g tbl user :
  storage g = Some tbl -> is_command "0" user ->
  ttp_write g user true =
    if ttp_enabled g then Ret (- EBUSY, g, [])
    else Ret (cut_len user, set_clock CLOCK_REALTIME g,
              [pr_info "ttp: using CLOCK_REALTIME"]).
Proof.
  intros Hs Hcmd.
  command_chain "0"%string user Hs Hcmd n Hn.
  destruct n as [| n]; [lia |].
  simpl. rewrite strncmp_end. reflexivity.
Qed.

Lemma ttp_write_clock1 g tbl user :
  storage g = Some tbl -> is_command "1" user ->
  ttp_write g user true =
    if ttp_enabled g then Ret (- EBUSY, g, [])
    else Ret (cut_len user, set_clock CLOCK_MONOTONIC g,
              [pr_info "ttp: using CLOCK_MONOTONIC"]).
Proof.
  intros Hs Hcmd.
  command_chain "1"%string user Hs Hcmd n Hn.
  destruct n as [| n]; [lia |].
  simpl. rewrite strncmp_end. reflexivity.
Qed.

(** The loop of [reset] stays within the table and zeroes the count of
    every shard from its index on. *)
Lemma reset_loop_spec (n : nat) :
  forall (i : nat) (tbl : list ttp_storage),
    (i + n)%nat = length tbl ->
    reset_loop n i tbl = Ret (take i tbl ++ map reset_shard (drop i tbl)).
Proof.
  induction n as [| n IH]; intros i tbl Hlen; simpl.
  - rewrite drop_ge, take_ge by lia. rewrite app_nil_r. reflexivity.
  - destruct (lookup_lt_is_Some_2 tbl i) as [stor Hlk]; [lia |].
    rewrite Hlk. simpl. rewrite IH by (rewrite length_insert; lia).
    rewrite insert_take_app by lia. rewrite drop_insert_lt by lia.
    rewrite (drop_S _ _ _ Hlk). simpl. rewrite <- app_assoc. reflexivity.
Qed.

Lemma reset_loop_all g tbl :
  wf g tbl -> reset_loop (Z.to_nat (ttp_cpus g)) 0 tbl = Ret (map reset_shard tbl).
Proof.
  intros Hwf. rewrite reset_loop_spec.
  - reflexivity.
  - pose proof (wf_cpus _ _ Hwf). lia.
Qed.

Lemma wf_reset g tbl :
  wf g tbl ->
  wf (set_storage (Some (map reset_shard tbl)) g) (map reset_shard tbl).
Proof.
  intros [Hs Hc Hc32 Hm Hsh Hcl Hsu]. constructor; simpl; try assumption.
  - reflexivity.
  - rewrite length_map. exact Hc.
  - apply Forall_fmap. eapply Forall_impl; [exact Hsh |].
    intros stor (evs & Hev & Hlen & Hcnt). exists evs. simpl. split_and!; try assumption; lia.
Qed.

(** X5: whatever bytes are written and whether or not the user copy
    succeeds, a write that returns an error (a negative value) leaves
    every global as it was and logs nothing. *)
Lemma ttp_write_error_frame g user copy_ok ret g' log :
  ttp_write g user copy_ok = Ret (ret, g', log) -> ret < 0 -> g' = g /\ log = [].
Proof.
  unfold ttp_write. intros Hw Hneg.
  assert (Hlen : 0 <= Z.min (Z.of_nat (length user)) MAX_INPUT_SIZE)
    by (unfold MAX_INPUT_SIZE; lia).
  destruct (storage g) as [tbl |]; [| injection Hw as <- <- <-; split; reflexivity].
  cbv zeta in Hw.
  repeat match type of Hw with
         | (if ?b then _ else _) = _ => destruct b
         end;
    try (injection Hw as <- <- <-; first [lia | split; reflexivity]).
  destruct (reset_loop _ _ _); simpl in Hw; try discriminate.
  injection Hw as <- <- <-. lia.
Qed.

(** C4: a token that is none of the five commands can still be taken for
    one, because [strncmp] compares no more than the bytes written: the
    one-byte input [s] and the empty input arm the capture, and [sto] stops
    it. *)
Theorem write_prefix_taken_as_command :
  ttp_write demo_globals (lit "s") true =
    Ret (1, set_enabled true demo_globals, [pr_info "ttp: Armed"]) /\
  ttp_write demo_globals [] true =
    Ret (0, set_enabled true demo_globals, [pr_info "ttp: Armed"]) /\
  ttp_write full_globals (lit "sto") true =
    Ret (3, stopped_globals, [pr_info "ttp: Stopped"]).
Proof. split_and!; reflexivity. Qed.

(** C5: the command [reset] is refused with [-EINVAL] while armed, and the
    globals, with every count and slot, stay as they are; while disarmed it
    sets the count of every shard to 0 and keeps each shard's array, the
    capacity, the armed flag and the clock. *)
Theorem reset_command g tbl user :
  wf g tbl -> is_command "reset" user ->
  ttp_write g user true =
    if ttp_enabled g then Ret (- EINVAL, g, [])
    else Ret (cut_len user, set_storage (Some (map reset_shard tbl)) g,
              [pr_info "ttp: Reset event storage"]).
Proof.
  intros Hwf Hcmd. rewrite (ttp_write_reset g tbl user (wf_storage _ _ Hwf) Hcmd).
  destruct (ttp_enabled g); [reflexivity |].
  rewrite (reset_loop_all g tbl Hwf). reflexivity.
Qed.

Lemma full_globals_wf :
  wf full_globals [Storage 2 (Some [Event 5 1000000010; Event 7 1000000020])].
Proof.
  constructor; simpl; try reflexivity; try lia.
  - repeat constructor. exists [Event 5 1000000010; Event 7 1000000020].
    simpl. repeat split; lia.
  - left. reflexivity.
Qed.

Lemma command_newline (cmd : string) : is_command cmd (lit cmd ++ [LF]).
Proof. exists [LF]. split; [reflexivity |]. repeat constructor. Qed.

Lemma command_bare (cmd : string) : is_command cmd (lit cmd).
Proof. exists []. split; [rewrite app_nil_r; reflexivity | constructor]. Qed.

Lemma reset_command_witness :
  ttp_write full_globals (lit "reset" ++ [LF]) true = Ret (- EINVAL, full_globals, []) /\
  ttp_write stopped_globals (lit "reset" ++ [LF]) true =
    Ret (6,
         Globals 2 false 1
           (Some [Storage 0 (Some [Event 5 1000000010; Event 7 1000000020])]) 0 0,
         [pr_info "ttp: Reset event storage"]).
Proof.
  split.
  - apply (reset_command full_globals _ _ full_globals_wf (command_newline "reset")).
  - apply (reset_command stopped_globals _ _ stopped_globals_wf (command_newline "reset")).
Defined.

(** The statement of C6 fails when both of its conditions meet: a read
    with a 16-byte buffer while armed returns [-EBUSY], not [-ENOSPC]. *)
Lemma read_undersized_while_armed :
  exists r,
    ttp_enabled full_globals = true /\ 16 < TMP_SIZE /\
    ttp_read full_globals (Fpos 0 0) 16 true = Ret r /\
    rd_ret r = - EBUSY /\ rd_ret r <> - ENOSPC.
Proof.
  eexists. split_and!; try reflexivity. simpl. discriminate.
Qed.

(** C6 (amended): on a loaded module a read while armed returns [-EBUSY]
    whatever the buffers hold, and a read while disarmed with a buffer of
    less than 128 bytes returns [-ENOSPC]; in both cases nothing is output
    and the cursor stays where it was. *)
Theorem read_refused g tbl fp size copy_ok :
  storage g = Some tbl ->
  ttp_enabled g = true \/ size < TMP_SIZE ->
  ttp_read g fp size copy_ok =
    Ret (ReadResult (if ttp_enabled g then - EBUSY else - ENOSPC) [] fp None).
Proof.
  intros Hs Hcase. unfold ttp_read. rewrite Hs.
  destruct (ttp_enabled g); [reflexivity |].
  destruct Hcase as [Habs | Hsmall]; [discriminate |].
  destruct (Z.ltb_spec size TMP_SIZE) as [_ | Hge]; [reflexivity | lia].
Qed.

Lemma read_refused_witness :
  ttp_read full_globals (Fpos 0 1) 4096 true =
    Ret (ReadResult (- EBUSY) [] (Fpos 0 1) None) /\
  ttp_read stopped_globals (Fpos 0 1) 127 true =
    Ret (ReadResult (- ENOSPC) [] (Fpos 0 1) None).
Proof.
  split.
  - apply (read_refused full_globals _ (Fpos 0 1) 4096 true eq_refl).
    left. reflexivity.
  - apply (read_refused stopped_globals _ (Fpos 0 1) 127 true eq_refl).
    right. unfold TMP_SIZE. lia.
Defined.

(** C7: the command [start] on an armed module returns [-EBUSY] and leaves
    the globals as they are; the command [stop] succeeds in every state and
    leaves the module disarmed, so that a second [stop] changes nothing. *)
Theorem start_busy_stop_idempotent g tbl (u1 u2 u3 : list ascii) :
  storage g = Some tbl ->
  is_command "start" u1 -> is_command "stop" u2 -> is_command "stop" u3 ->
  ttp_write g u1 true =
    (if ttp_enabled g then Ret (- EBUSY, g, [])
     else Ret (cut_len u1, set_enabled true g, [pr_info "ttp: Armed"])) /\
  exists g1,
    ttp_write g u2 true = Ret (cut_len u2, g1, [pr_info "ttp: Stopped"]) /\
    ttp_enabled g1 = false /\
    storage g1 = storage g /\ ttp_clock g1 = ttp_clock g /\
    ttp_write g1 u3 true = Ret (cut_len u3, g1, [pr_info "ttp: Stopped"]).
Proof.
  intros Hs H1 H2 H3. split.
  - apply (ttp_write_start g tbl u1 Hs H1).
  - exists (set_enabled false g). split_and!; try reflexivity.
    + apply (ttp_write_stop g tbl u2 Hs H2).
    + apply (ttp_write_stop (set_enabled false g) tbl u3 Hs H3).
Qed.

Lemma start_busy_stop_idempotent_witness :
  ttp_write full_globals (lit "start" ++ [LF]) true = Ret (- EBUSY, full_globals, []) /\
  exists g1,
    ttp_write full_globals (lit "stop") true = Ret (4, g1, [pr_info "ttp: Stopped"]) /\
    ttp_enabled g1 = false /\
    storage g1 = storage full_globals /\ ttp_clock g1 = ttp_clock full_globals /\
    ttp_write g1 (lit "stop" ++ [LF]) true = Ret (5, g1, [pr_info "ttp: Stopped"]).
Proof.
  apply (start_busy_stop_idempotent full_globals _ _ _ _ eq_refl
           (command_newline "start") (command_bare "stop") (command_newline "stop")).
Defined.

(** ** The cursor only moves forward *)

Lemma slot_le_refl (a : Z * Z) : slot_le a a.
Proof. left. reflexivity. Qed.

Lemma slot_le_trans (a b c : Z * Z) : slot_le a b -> slot_le b c -> slot_le a c.
Proof.
  unfold slot_le, slot_lt. destruct a, b, c. simpl.
  intros [Hab | Hab] [Hbc | Hbc]; try (injection Hab as -> ->);
    try (injection Hbc as -> ->); try (left; reflexivity); right; lia.
Qed.

Lemma slot_lt_le_trans (a b c : Z * Z) : slot_lt a b -> slot_le b c -> slot_lt a c.
Proof.
  unfold slot_le, slot_lt. destruct a, b, c. simpl.
  intros Hab [Hbc | Hbc]; try (injection Hbc as -> ->); lia.
Qed.

Lemma slot_lt_irrefl (a : Z * Z) : ~ slot_lt a a.
Proof. unfold slot_lt. lia. Qed.

(** Whatever the table holds and whether or not the copy succeeds, the
    slot a pass formats is at or beyond the cursor, and the cursor ends
    one slot behind it. *)
Lemma ttp_read_again_advances g tbl :
  wf g tbl ->
  forall (fuel : nat) fp copy_ok r,
    0 <= fpos_cpu fp -> 0 <= fpos_event fp ->
    ttp_read_again fuel g tbl fp copy_ok = Ret r ->
    slot_le (pos fp) (pos (rd_fpos r)) /\
    0 <= fpos_cpu (rd_fpos r) /\ 0 <= fpos_event (rd_fpos r) /\
    forall s, rd_slot r = Some s ->
      slot_le (pos fp) s /\ pos (rd_fpos r) = (fst s, snd s + 1).
Proof.
  intros Hwf. pose proof (wf_cpus _ _ Hwf) as Hcpus.
  pose proof (wf_cpus_u32 _ _ Hwf) as Hc32.
  pose proof (wf_max_u32 _ _ Hwf) as Hmax.
  induction fuel as [| fuel IH]; intros [c e] copy_ok r Hc He Hrd; simpl in *.
  - discriminate.
  - destruct (Z.eqb_spec c (ttp_cpus g)) as [Heq | Hne].
    + injection Hrd as <-. simpl. split_and!; try lia; [apply slot_le_refl |].
      intros s Hs. discriminate.
    + destruct (tbl !! Z.to_nat c) as [stor |] eqn:Hlk; simpl in Hrd; [| discriminate].
      pose proof (lookup_lt_Some _ _ _ Hlk) as Hlt.
      destruct (wf_shard _ _ _ _ Hwf Hlk) as (evs & Hev & Hlen & Hrange).
      destruct (Z.eqb_spec e (eventcount stor)) as [Hfull | Hmore].
      * rewrite u32_small in Hrd by lia.
        destruct (IH (Fpos (c + 1) 0) copy_ok r) as (Hle & Hc' & He' & Hslot);
          [simpl; lia | simpl; lia | exact Hrd |].
        assert (Hstep : slot_le (c, e) (c + 1, 0)).
        { right. left. simpl. lia. }
        split_and!; try assumption.
        { eapply slot_le_trans; [exact Hstep | exact Hle]. }
        intros s Hs. destruct (Hslot s Hs) as [Hs1 Hs2]. split; [| exact Hs2].
        eapply slot_le_trans; [exact Hstep | exact Hs1].
      * rewrite Hev in Hrd. simpl in Hrd.
        destruct (evs !! Z.to_nat e) as [ev |] eqn:Hslot; simpl in Hrd; [| discriminate].
        pose proof (lookup_lt_Some _ _ _ Hslot) as Hlt'.
        rewrite u64_small in Hrd by lia.
        destruct copy_ok; injection Hrd as <-; simpl.
        all: split_and!; try lia; try (right; right; simpl; lia).
        all: intros s Hs; injection Hs as <-; split; [apply slot_le_refl | reflexivity].
Qed.

Lemma ttp_read_advances g tbl fp size copy_ok r :
  wf g tbl -> 0 <= fpos_cpu fp -> 0 <= fpos_event fp ->
  ttp_read g fp size copy_ok = Ret r ->
  slot_le (pos fp) (pos (rd_fpos r)) /\
  0 <= fpos_cpu (rd_fpos r) /\ 0 <= fpos_event (rd_fpos r) /\
  forall s, rd_slot r = Some s ->
    slot_le (pos fp) s /\ pos (rd_fpos r) = (fst s, snd s + 1).
Proof.
  intros Hwf Hc He. unfold ttp_read. rewrite (wf_storage _ _ Hwf).
  destruct (ttp_enabled g).
  { intros Hrd. injection Hrd as <-. simpl.
    split_and!; try assumption; [apply slot_le_refl | discriminate]. }
  destruct (size <? TMP_SIZE).
  { intros Hrd. injection Hrd as <-. simpl.
    split_and!; try assumption; [apply slot_le_refl | discriminate]. }
  apply ttp_read_again_advances; assumption.
Qed.

(** Every slot formatted by later reads of the session is at or beyond the
    cursor, whatever happened to the module between the reads. *)
Lemma read_trace_beyond (reqs : list (ttp_globals * Z * bool)) :
  Forall (fun req => exists tbl, wf (fst (fst req)) tbl) reqs ->
  forall fp rs,
    0 <= fpos_cpu fp -> 0 <= fpos_event fp ->
    read_trace fp reqs = Ret rs ->
    Forall (fun r => forall s, rd_slot r = Some s -> slot_le (pos fp) s) rs.
Proof.
  induction 1 as [| [[g size] copy_ok] reqs [tbl Hwf] Hall IH]; intros fp rs Hc He Hrun.
  - injection Hrun as <-. constructor.
  - simpl in Hrun.
    destruct (ttp_read g fp size copy_ok) as [r | |] eqn:Hrd; simpl in Hrun; try discriminate.
    destruct (read_trace (rd_fpos r) reqs) as [rs' | |] eqn:Hrest; simpl in Hrun;
      try discriminate.
    injection Hrun as <-.
    destruct (ttp_read_advances g tbl fp size copy_ok r Hwf Hc He Hrd)
      as (Hle & Hc' & He' & Hslot).
    constructor.
    + intros s Hs. apply (Hslot s Hs).
    + eapply Forall_impl; [apply (IH (rd_fpos r) rs' Hc' He' Hrest) |].
      simpl. intros r' Hr' s Hs. eapply slot_le_trans; [exact Hle | apply Hr'; exact Hs].
Qed.

(** A pass that formats a record while the user copy fails returns
    [-EINVAL] and outputs nothing. *)
Lemma ttp_read_again_copy_failed g tbl (fuel : nat) :
  forall fp r,
    ttp_read_again fuel g tbl fp false = Ret r -> is_Some (rd_slot r) ->
    rd_ret r = - EINVAL /\ rd_out r = [].
Proof.
  induction fuel as [| fuel IH]; intros fp r; simpl; [discriminate |].
  destruct (fpos_cpu fp =? ttp_cpus g).
  { intros H [s Hs]. injection H as <-. discriminate. }
  destruct (tbl !! Z.to_nat (fpos_cpu fp)) as [stor |]; simpl; [| discriminate].
  destruct (fpos_event fp =? eventcount stor); [apply IH |].
  destruct (events stor) as [evs |]; simpl; [| discriminate].
  destruct (evs !! Z.to_nat (fpos_event fp)); simpl; [| discriminate].
  intros H _. injection H as <-. split; reflexivity.
Qed.

(** C10: when a read has formatted the record of a slot and the copy to
    the caller fails, it returns [-EINVAL] with nothing output, yet the
    cursor is one slot further; every record any later read of the session
    formats comes from a slot strictly behind the lost one, so the session
    never gets that record. *)
Theorem copy_failure_loses_event g tbl fp size r (s : Z * Z)
    (later : list (ttp_globals * Z * bool)) (rs : list read_result) :
  wf g tbl -> 0 <= fpos_cpu fp -> 0 <= fpos_event fp ->
  ttp_read g fp size false = Ret r -> rd_slot r = Some s ->
  Forall (fun req => exists tbl', wf (fst (fst req)) tbl') later ->
  read_trace (rd_fpos r) later = Ret rs ->
  rd_ret r = - EINVAL /\ rd_out r = [] /\
  pos (rd_fpos r) = (fst s, snd s + 1) /\
  Forall (fun r' => forall s', rd_slot r' = Some s' -> slot_lt s s') rs.
Proof.
  intros Hwf Hc He Hrd Hs Hlater Hrun.
  destruct (ttp_read_advances g tbl fp size false r Hwf Hc He Hrd)
    as (Hle & Hc' & He' & Hslot).
  destruct (Hslot s Hs) as [_ Hpos].
  assert (Hret : rd_ret r = - EINVAL /\ rd_out r = []).
  { revert Hrd. unfold ttp_read. rewrite (wf_storage _ _ Hwf).
    destruct (ttp_enabled g); [intros H; injection H as <-; discriminate |].
    destruct (size <? TMP_SIZE); [intros H; injection H as <-; discriminate |].
    intros H. eapply ttp_read_again_copy_failed; [exact H | rewrite Hs; eexists; reflexivity]. }
  destruct Hret as [Hret Hout]. split_and!; try assumption.
  pose proof (read_trace_beyond later Hlater (rd_fpos r) rs Hc' He' Hrun) as Hbeyond.
  eapply Forall_impl; [exact Hbeyond |]. simpl. intros r' Hr' s' Hs'.
  specialize (Hr' s' Hs'). eapply slot_lt_le_trans; [| exact Hr'].
  rewrite Hpos. destruct s as [sc se]. right. simpl. lia.
Qed.

Lemma copy_failure_loses_event_witness :
  - EINVAL = - EINVAL /\ @nil ascii = [] /\
  (0, 1) = (0, 0 + 1) /\
  Forall (fun r' => forall s', rd_slot r' = Some s' -> slot_lt (0, 0) s')
    [ReadResult 15 (lit "7,0,1000000020" ++ [LF]) (Fpos 0 2) (Some (0, 1));
     ReadResult 0 [] (Fpos 1 0) None].
Proof.
  apply (copy_failure_loses_event stopped_globals
           [Storage 2 (Some [Event 5 1000000010; Event 7 1000000020])]
           (Fpos 0 0) 128
           (ReadResult (- EINVAL) [] (Fpos 0 1) (Some (0, 0))) (0, 0)
           [(stopped_globals, 128, true); (stopped_globals, 128, true)]).
  - exact stopped_globals_wf.
  - simpl. lia.
  - simpl. lia.
  - reflexivity.
  - reflexivity.
  - repeat constructor; eexists; exact stopped_globals_wf.
  - reflexivity.
Defined.

(** ** A drain overtaken by reset *)

(** C9: after a [reset] between two reads of a session the next read
    formats slot 1 of shard 0 although the count of that shard is 0, and
    returns the record that was there before the reset; the read after
    it leaves the array of the shard. *)
Theorem read_past_count_after_reset :
  reset_during_drain =
    Ret (ReadResult 15 (lit "7,0,1000000020" ++ [LF]) (Fpos 0 2) (Some (0, 1)),
         Fault,
         Some (Storage 0 (Some [Event 5 1000000010; Event 7 1000000020]))).
Proof. reflexivity. Qed.

(** ** ttp_init and ttp_exit *)

(** Once the table is allocated, the loop of [ttp_init] only adds blocks. *)
Lemma init_loop_keeps env max_ev (n : nat) :
  forall (i : nat) tbl live tbl' live',
    init_loop env max_ev n i tbl live = Ret (inl (tbl', live')) \/
    init_loop env max_ev n i tbl live = Ret (inr (tbl', live')) ->
    exists more, live' = live ++ more.
Proof.
  induction n as [| n IH]; intros i tbl live tbl' live'; simpl.
  - intros [H | H]; [discriminate |]. injection H as <- <-.
    exists []. rewrite app_nil_r. reflexivity.
  - destruct (tbl !! i) as [stor |]; simpl; [| intros [H | H]; discriminate].
    destruct (kvzalloc_ok env i).
    + intros H. destruct (IH _ _ _ _ _ H) as [more ->].
      exists (EventsBlock i :: more). rewrite <- app_assoc. reflexivity.
    + intros [H | H]; [| discriminate]. injection H as <- <-.
      exists []. rewrite app_nil_r. reflexivity.
Qed.

(** Whenever [ttp_init] fails after the table was allocated, the table is
    still allocated when it returns. *)
Lemma ttp_init_failure_keeps_table max_ev env res log :
  kzalloc_ok env = true ->
  ttp_init max_ev env = Ret (res, log) -> in_ret res <> 0 ->
  In TableBlock (in_live res).
Proof.
  intros Hk. unfold ttp_init. rewrite Hk. simpl.
  destruct (init_loop _ _ _ _ _ _) as [[[tbl' live'] | [tbl' live']] | |] eqn:Hloop;
    simpl; try discriminate.
  - intros H _. injection H as <- <-. simpl.
    destruct (init_loop_keeps _ _ _ _ _ _ _ _ (or_introl Hloop)) as [more ->].
    simpl. left. reflexivity.
  - destruct (misc_register env =? 0); simpl; intros H Hret; injection H as <- <-;
      simpl in *; [congruence |].
    destruct (init_loop_keeps _ _ _ _ _ _ _ _ (or_intror Hloop)) as [more ->].
    simpl. left. reflexivity.
Qed.

(** C8: with two cpus and the allocation for cpu 1 failing, [ttp_init]
    returns [-ENOMEM] while the table and the events of cpu 0 are still
    allocated: the unrolling is missing. *)
Theorem init_failure_leaves_blocks (max_ev : Z) :
  exists g log,
    ttp_init max_ev failing_env =
      Ret (InitResult (- ENOMEM) g [TableBlock; EventsBlock 0] false, log).
Proof. eexists _, _. reflexivity. Qed.

(** What [ttp_exit] does for a loaded module, the failure path of
    [ttp_init] does not: release every block. *)
Example init_exit_releases :
  exists g log,
    ttp_init 2 demo_env =
      Ret (InitResult 0 g [TableBlock; EventsBlock 0] true, log) /\
    g = demo_globals /\
    ttp_exit g [TableBlock; EventsBlock 0] = Ret [].
Proof. eexists _, _. split_and!; reflexivity. Qed.

(** With every allocation succeeding the loop of [ttp_init] gives every
    cpu from its index on an array of [max_ev] zeroed slots. *)
Lemma init_loop_spec env max_ev (n : nat) :
  (forall i, kvzalloc_ok env i = true) ->
  forall (i : nat) tbl live,
    (i + n)%nat = length tbl ->
    init_loop env max_ev n i tbl live =
      Ret (inr (take i tbl ++ map (alloc_shard max_ev) (drop i tbl),
                live ++ map EventsBlock (seq i n))).
Proof.
  intros Hok. induction n as [| n IH]; intros i tbl live Hlen; simpl.
  - rewrite drop_ge, take_ge by lia. rewrite !app_nil_r. reflexivity.
  - destruct (lookup_lt_is_Some_2 tbl i) as [stor Hlk]; [lia |].
    rewrite Hlk. simpl. rewrite Hok. rewrite IH by (rewrite length_insert; lia).
    rewrite insert_take_app by lia. rewrite drop_insert_lt by lia.
    rewrite (drop_S _ _ _ Hlk). simpl. rewrite <- !app_assoc. reflexivity.
Qed.

(** X1: when every allocation and the registration succeed, [ttp_init]
    returns 0 with the device registered, holds the table and one event
    array per cpu, and leaves the module disarmed on the wall clock, every
    shard empty with [max_ev] zeroed slots: the invariant holds. *)
Theorem init_establishes_invariant max_ev env :
  0 <= max_ev < 2 ^ 32 -> 0 <= cpus_present env < 2 ^ 32 ->
  kzalloc_ok env = true -> (forall i, kvzalloc_ok env i = true) ->
  misc_register env = 0 ->
  exists g log,
    ttp_init max_ev env =
      Ret (InitResult 0 g
             (TableBlock :: map EventsBlock (seq 0 (Z.to_nat (cpus_present env))))
             true, log) /\
    wf g (replicate (Z.to_nat (cpus_present env))
            (Storage 0 (Some (replicate (Z.to_nat max_ev) zero_event)))) /\
    ttp_enabled g = false /\ ttp_clock g = CLOCK_REALTIME /\
    max_events g = max_ev /\ ttp_cpus g = cpus_present env.
Proof.
  intros Hmax Hcpus Hk Hkv Hreg. unfold ttp_init. rewrite Hk. simpl.
  rewrite (init_loop_spec env max_ev _ Hkv) by (rewrite length_replicate; lia).
  simpl. rewrite Hreg. simpl. rewrite drop_0, fmap_replicate.
  eexists _, _. split; [reflexivity |]. split_and!; try reflexivity.
  constructor; simpl; try reflexivity; try lia.
  - rewrite length_replicate. lia.
  - apply Forall_replicate. exists (replicate (Z.to_nat max_ev) zero_event).
    simpl. rewrite length_replicate. split_and!; try reflexivity; lia.
  - left. reflexivity.
Qed.

Lemma init_establishes_invariant_witness :
  exists g log,
    ttp_init 2 demo_env =
      Ret (InitResult 0 g [TableBlock; EventsBlock 0] true, log) /\
    wf g [Storage 0 (Some [zero_event; zero_event])] /\
    ttp_enabled g = false /\ ttp_clock g = CLOCK_REALTIME /\
    max_events g = 2 /\ ttp_cpus g = 1.
Proof.
  apply (init_establishes_invariant 2 demo_env).
  - lia.
  - simpl. lia.
  - reflexivity.
  - intros i. reflexivity.
  - reflexivity.
Defined.

(** ** The invariant is kept *)

Lemma recorded_of_store (stor : ttp_storage) (evs : list event) (e : event) :
  events stor = Some evs -> 0 <= eventcount stor ->
  (Z.to_nat (eventcount stor) < length evs)%nat ->
  recorded_of (Storage (eventcount stor + 1)
                 (Some (<[Z.to_nat (eventcount stor) := e]> evs))) =
    recorded_of stor ++ [e].
Proof.
  intros Hev Hc Hlt. unfold recorded_of. simpl. rewrite Hev. simpl.
  replace (Z.to_nat (eventcount stor + 1)) with (S (Z.to_nat (eventcount stor))) by lia.
  apply insert_take_app. exact Hlt.
Qed.

(** [ttp_emit] never leaves the arrays, keeps the invariant, touches no
    shard but that of the executing cpu, and there only adds a record
    behind the ones recorded. *)
Lemma ttp_emit_wf g tbl env id :
  wf g tbl -> 0 <= smp_processor_id env ->
  exists g' tbl' log,
    ttp_emit g env id = Ret (g', log) /\ wf g' tbl' /\
    ttp_enabled g' = ttp_enabled g /\ ttp_clock g' = ttp_clock g /\
    max_events g' = max_events g /\ ttp_cpus g' = ttp_cpus g /\
    (forall c : nat, c <> Z.to_nat (smp_processor_id env) -> tbl' !! c = tbl !! c) /\
    (forall (c : nat) stor, tbl !! c = Some stor ->
       exists stor', tbl' !! c = Some stor' /\
                     recorded_of stor `prefix_of` recorded_of stor').
Proof.
  intros Hwf Hc.
  assert (Hsame : forall (c : nat) stor, tbl !! c = Some stor ->
            exists stor', tbl !! c = Some stor' /\
                          recorded_of stor `prefix_of` recorded_of stor').
  { intros c stor Hlk. exists stor. split; [exact Hlk | reflexivity]. }
  destruct (ttp_enabled g) eqn:Hen.
  2: { exists g, tbl, []. unfold ttp_emit. rewrite Hen. simpl.
       split_and!; try reflexivity; assumption. }
  destruct (Z.leb_spec (ttp_cpus g) (smp_processor_id env)) as [Hout | Hin].
  { destruct (wf_read_clock g tbl env Hwf) as [tp Htp].
    exists g, tbl, [pr_crit "CPU id"]. unfold ttp_emit. rewrite Hen, Htp. simpl.
    destruct (Z.leb_spec (ttp_cpus g) (smp_processor_id env)) as [_ | Hlt]; [| lia].
    split_and!; try reflexivity; assumption. }
  pose proof (wf_cpus _ _ Hwf) as Hcpus.
  destruct (lookup_lt_is_Some_2 tbl (Z.to_nat (smp_processor_id env))) as [stor Hlk]; [lia |].
  destruct (wf_shard _ _ _ _ Hwf Hlk) as (evs & Hev & Hlen & Hcnt).
  destruct (Z.le_gt_cases (max_events g) (eventcount stor)) as [Hfull | Hroom].
  - eexists _, tbl, _. split; [apply (ttp_emit_full g tbl env id stor); assumption |].
    split_and!; try reflexivity; try exact Hen; try exact Hsame.
    apply wf_set_suppress. exact Hwf.
  - set (stor' := Storage (eventcount stor + 1)
                    (Some (<[Z.to_nat (eventcount stor) :=
                               stamped (ttp_clock g) (id, env)]> evs))).
    exists (set_storage (Some (<[Z.to_nat (smp_processor_id env) := stor']> tbl)) g),
           (<[Z.to_nat (smp_processor_id env) := stor']> tbl), [].
    split; [apply (ttp_emit_store g tbl env id stor evs); assumption || lia |].
    split_and!; try reflexivity; try exact Hen.
    + apply wf_store; [exact Hwf |].
      eexists. simpl. split; [reflexivity |]. rewrite length_insert. lia.
    + intros c Hne. apply list_lookup_insert_ne. congruence.
    + intros c stor0 Hlk0.
      destruct (decide (c = Z.to_nat (smp_processor_id env))) as [-> | Hne].
      * rewrite Hlk in Hlk0. injection Hlk0 as <-. exists stor'. split.
        { apply list_lookup_insert_eq. eapply lookup_lt_Some. exact Hlk. }
        subst stor'. rewrite (recorded_of_store stor evs _ Hev) by lia.
        apply prefix_app_r. reflexivity.
      * exists stor0. split; [| reflexivity].
        rewrite list_lookup_insert_ne by congruence. exact Hlk0.
Qed.

(** [ttp_write] never leaves the table and keeps the invariant, whatever
    is written. *)
Lemma ttp_write_wf g tbl user copy_ok :
  wf g tbl ->
  exists ret g' tbl' log,
    ttp_write g user copy_ok = Ret (ret, g', log) /\ wf g' tbl' /\
    max_events g' = max_events g /\ ttp_cpus g' = ttp_cpus g.
Proof.
  intros Hwf. unfold ttp_write. rewrite (wf_storage _ _ Hwf). cbv zeta.
  rewrite (reset_loop_all g tbl Hwf). simpl obind.
  repeat match goal with
         | |- context [if ?b then _ else _] => destruct b
         end;
    eexists _, _, _, _; (split; [reflexivity |]); (split; [| split; reflexivity]);
    first [ exact Hwf
          | apply wf_set_enabled; exact Hwf
          | apply wf_reset; exact Hwf
          | apply wf_set_clock; [exact Hwf | (left; reflexivity) || (right; reflexivity)] ].
Qed.

(** * Further properties *)

(** ** ttp_exit undoes ttp_init *)









(** ** Invariants over sequences of operations *)

(** X3: on a loaded module every interleaving of [ttp_emit] calls (on any
    cpu, armed or not, with room or not) and of writes to the device
    (any bytes, the user copy failing or not) runs without an access
    outside the table and the event arrays, and keeps the invariant:
    one shard per cpu, each with [max_events] slots and a count within
    them, a valid clock; capacity and cpu count never change. *)
Theorem run_keeps_invariant (ops : list op) :
  forall g tbl,
    wf g tbl -> Forall op_ok ops ->
    exists g' tbl',
      run g ops = Ret g' /\ wf g' tbl' /\
      max_events g' = max_events g /\ ttp_cpus g' = ttp_cpus g.
Proof.
  induction ops as [| o ops IH]; intros g tbl Hwf Hok.
  - exists g, tbl. split_and!; try reflexivity. exact Hwf.
  - apply Forall_cons in Hok as [Ho Hok]. destruct o as [env id | user copy_ok].
    + destruct (ttp_emit_wf g tbl env id Hwf Ho)
        as (g1 & tbl1 & log & Hstep & Hwf1 & _ & _ & Hmax & Hcpus & _).
      destruct (IH g1 tbl1 Hwf1 Hok) as (g' & tbl' & Hrun & Hwf' & Hmax' & Hcpus').
      exists g', tbl'. simpl. rewrite Hstep. simpl.
      split_and!; try assumption; congruence.
    + destruct (ttp_write_wf g tbl user copy_ok Hwf)
        as (ret & g1 & tbl1 & log & Hstep & Hwf1 & Hmax & Hcpus).
      destruct (IH g1 tbl1 Hwf1 Hok) as (g' & tbl' & Hrun & Hwf' & Hmax' & Hcpus').
      exists g', tbl'. simpl. rewrite Hstep. simpl.
      split_and!; try assumption; congruence.
Qed.

Lemma run_keeps_invariant_witness :
  exists g' tbl',
    run demo_globals
      [OpWrite (lit "start") true; OpEmit (at_time 10) 5; OpEmit (at_time 20) 7;
       OpEmit (at_time 30) 9; OpWrite (lit "bogus") true; OpWrite (lit "stop") false;
       OpWrite (lit "stop" ++ [LF]) true; OpWrite (lit "reset") true] = Ret g' /\
    wf g' tbl' /\ max_events g' = 2 /\ ttp_cpus g' = 1.
Proof.
  apply (run_keeps_invariant _ demo_globals [Storage 0 (Some [zero_event; zero_event])]).
  - constructor; simpl; try reflexivity; try lia.
    + repeat constructor. exists [zero_event; zero_event]. simpl. repeat split; lia.
    + left. reflexivity.
  - repeat constructor; simpl; lia.
Defined.

(** X4: calls of [ttp_emit] on a loaded module, on whatever cpus, never
    overwrite or drop a recorded event: the records each shard held
    before are a prefix of the records it holds afterwards, a shard on
    whose cpu no call was made is left as it was, and the armed flag and
    the clock are not touched. *)
Theorem emit_extends_records (calls : list (Z * emit_env)) :
  forall g tbl,
    wf g tbl -> Forall (fun call => 0 <= smp_processor_id (snd call)) calls ->
    exists g' tbl' log,
      emit_all g calls = Ret (g', log) /\ wf g' tbl' /\
      ttp_enabled g' = ttp_enabled g /\ ttp_clock g' = ttp_clock g /\
      forall (c : nat) stor, tbl !! c = Some stor ->
        exists stor', tbl' !! c = Some stor' /\
          recorded_of stor `prefix_of` recorded_of stor' /\
          (Forall (fun call => Z.to_nat (smp_processor_id (snd call)) <> c) calls ->
           stor' = stor).
Proof.
  induction calls as [| [id env] calls IH]; intros g tbl Hwf Hok.
  - exists g, tbl, []. split_and!; try reflexivity; [exact Hwf |].
    intros c stor Hlk. exists stor. split_and!; [exact Hlk | reflexivity | reflexivity].
  - apply Forall_cons in Hok as [Ho Hok]. simpl in Ho.
    destruct (ttp_emit_wf g tbl env id Hwf Ho)
      as (g1 & tbl1 & log1 & Hstep & Hwf1 & Hen1 & Hcl1 & _ & _ & Hframe & Hpre).
    destruct (IH g1 tbl1 Hwf1 Hok) as (g' & tbl' & log & Hrun & Hwf' & Hen' & Hcl' & Hall).
    exists g', tbl', (log1 ++ log). simpl. rewrite Hstep. simpl. rewrite Hrun. simpl.
    split_and!; try assumption; try congruence; try reflexivity.
    intros c stor Hlk. destruct (Hpre c stor Hlk) as (stor1 & Hlk1 & Hp1).
    destruct (Hall c stor1 Hlk1) as (stor' & Hlk' & Hp' & Hsame).
    exists stor'. split_and!; [exact Hlk' | etransitivity; eassumption |].
    intros Hnot. apply Forall_cons in Hnot as [Hne Hnot]. simpl in Hne.
    rewrite (Hsame Hnot). rewrite Hframe in Hlk1 by congruence. congruence.
Qed.

Lemma emit_extends_records_witness :
  exists g' tbl' log,
    emit_all full_globals [(9, at_time 30); (11, EmitEnv 3 (Timespec 0 0) (Timespec 0 0))]
      = Ret (g', log) /\
    wf g' tbl' /\ ttp_enabled g' = true /\ ttp_clock g' = 0 /\
    forall (c : nat) stor,
      [Storage 2 (Some [Event 5 1000000010; Event 7 1000000020])] !! c = Some stor ->
      exists stor', tbl' !! c = Some stor' /\
        recorded_of stor `prefix_of` recorded_of stor' /\
        (Forall (fun call => Z.to_nat (smp_processor_id (snd call)) <> c)
           [(9, at_time 30); (11, EmitEnv 3 (Timespec 0 0) (Timespec 0 0))] ->
         stor' = stor).
Proof.
  apply (emit_extends_records _ full_globals _ full_globals_wf).
  repeat constructor; simpl; lia.
Defined.

Lemma ttp_write_error_frame_witness :
  full_globals = full_globals /\ @nil printk = [].
Proof.
  apply (ttp_write_error_frame full_globals (lit "reset" ++ [LF]) true (- EINVAL)).
  - reflexivity.
  - unfold EINVAL. lia.
Defined.

Lemma emit_all_full_first_witness :
  exists g',
    emit_all full_globals ((9, at_time 30) :: replicate 255 (9, at_time 40)) =
      Ret (g', [pr_err "Max Events reached"]) /\
    storage g' = storage full_globals.
Proof.
  apply (emit_all_full_first 0 9 (at_time 30) (replicate 255 (9, at_time 40))
           full_globals _ (Storage 2 (Some [Event 5 1000000010; Event 7 1000000020]))
           full_globals_wf).
  - reflexivity.
  - lia.
  - reflexivity.
  - simpl. lia.
  - constructor; [reflexivity |]. apply Forall_replicate. reflexivity.
  - reflexivity.
  - rewrite length_replicate. lia.
Defined.

(** ** ttp_write: what the bytes written mean *)

(** X6: [ttp_write] looks at no more than the first 31 bytes: a longer
    input gives the same return value, globals and log as its first 31
    bytes alone. *)
Theorem write_looks_at_31_bytes g (user : list ascii) (copy_ok : bool) :
  ttp_write g user copy_ok = ttp_write g (take 31 user) copy_ok.
Proof.
  unfold ttp_write. destruct (storage g) as [tbl |]; [| reflexivity].
  cbv zeta. unfold MAX_INPUT_SIZE.
  assert (Hlen : Z.min (Z.of_nat (length (take 31 user))) 31 =
                 Z.min (Z.of_nat (length user)) 31).
  { rewrite length_take. lia. }
  rewrite Hlen. rewrite take_take.
  replace (Z.to_nat (Z.min (Z.of_nat (length user)) 31) `min` 31)%nat
    with (Z.to_nat (Z.min (Z.of_nat (length user)) 31)) by lia.
  reflexivity.
Qed.

Lemma strim_head (c : ascii) (b : list ascii) :
  exists x tl, strim (c :: b) = x :: tl /\ (x = c \/ x = NUL).
Proof.
  unfold strim. destruct (strlen (c :: b) =? 0)%nat.
  - exists c, b. split; [reflexivity | left; reflexivity].
  - destruct (strim_scan (c :: b) (strlen (c :: b))) as [| k].
    + exists NUL, b. split; [reflexivity | right; reflexivity].
    + exists c, (<[k := NUL]> b). split; [reflexivity | left; reflexivity].
Qed.

Lemma strncmp_first_differs (x y : ascii) (cs ct : list ascii) (n : nat) :
  x <> y -> (strncmp (x :: cs) (y :: ct) (S n) =? 0) = false.
Proof.
  intros Hne. simpl. unfold char_at. simpl.
  destruct (Ascii.eqb_spec x y) as [-> | _]; [contradiction |]. simpl.
  destruct ((N_of_ascii x <? N_of_ascii y)%N); reflexivity.
Qed.

(** X7: white space in front of a command is not skipped (the pointer
    [strim] returns is not used): a write whose first byte is white space
    is refused with [-EINVAL] and changes nothing, whatever follows. *)
Theorem write_leading_space_refused g tbl (c : ascii) (rest : list ascii) :
  storage g = Some tbl -> isspace c = true ->
  ttp_write g (c :: rest) true = Ret (- EINVAL, g, []).
Proof.
  intros Hs Hsp. unfold ttp_write. rewrite Hs. cbv zeta. simpl negb. cbv iota.
  assert (Hn : exists m, Z.to_nat (Z.min (Z.of_nat (length (c :: rest))) MAX_INPUT_SIZE) = S m).
  { unfold MAX_INPUT_SIZE. simpl length.
    exists (Nat.pred (Z.to_nat (Z.min (Z.of_nat (S (length rest))) 31))). lia. }
  destruct Hn as [m Hm]. rewrite Hm. simpl take. rewrite <- app_comm_cons.
  destruct (strim_head c (take m rest ++ [NUL])) as (x & tl & -> & Hx).
  assert (Hx' : x <> "s"%char /\ x <> "r"%char /\ x <> "0"%char /\ x <> "1"%char).
  { destruct Hx as [-> | ->]; split_and!; try discriminate;
      intros ->; discriminate Hsp. }
  destruct Hx' as (Hs' & Hr' & H0' & H1').
  change (lit "start") with ("s"%char :: lit "tart").
  change (lit "stop") with ("s"%char :: lit "top").
  change (lit "reset") with ("r"%char :: lit "eset").
  change (lit "0") with ("0"%char :: lit "").
  change (lit "1") with ("1"%char :: lit "").
  rewrite !strncmp_first_differs by assumption. reflexivity.
Qed.

Lemma write_leading_space_refused_witness :
  ttp_write demo_globals (" "%char :: lit "start" ++ [LF]) true =
    Ret (- EINVAL, demo_globals, []).
Proof.
  apply (write_leading_space_refused demo_globals
           [Storage 0 (Some [zero_event; zero_event])] " "%char (lit "start" ++ [LF])).
  - reflexivity.
  - reflexivity.
Defined.

(** ** The clock commands and the gate *)

Lemma emit_all_disarmed (calls : list (Z * emit_env)) (g : ttp_globals) :
  ttp_enabled g = false -> emit_all g calls = Ret (g, []).
Proof.
  intros Hdis. induction calls as [| [id env] calls IH]; [reflexivity |].
  simpl. unfold ttp_emit. rewrite Hdis. simpl. rewrite IH. reflexivity.
Qed.

(** X8: the commands [0] and [1] select the clock of the next capture:
    after [0] and [start] a call of [ttp_emit] stores the wall-clock
    reading, after [1] and [start] the monotonic one, each as
    [tv_sec * 10^9 + tv_nsec] in the slot at the count of the shard. *)
Theorem clock_command_selects_stamp g tbl (u0 u1 us : list ascii) env id stor evs :
  wf g tbl -> ttp_enabled g = false ->
  is_command "0" u0 -> is_command "1" u1 -> is_command "start" us ->
  0 <= smp_processor_id env ->
  tbl !! Z.to_nat (smp_processor_id env) = Some stor ->
  events stor = Some evs -> eventcount stor < max_events g ->
  (exists g1 g2 g3 evs',
     ttp_write g u0 true = Ret (cut_len u0, g1, [pr_info "ttp: using CLOCK_REALTIME"]) /\
     ttp_write g1 us true = Ret (cut_len us, g2, [pr_info "ttp: Armed"]) /\
     ttp_emit g2 env id = Ret (g3, []) /\
     shard g3 (smp_processor_id env) = Some (Storage (eventcount stor + 1) (Some evs')) /\
     evs' !! Z.to_nat (eventcount stor) = Some (make_event id (ktime_real env))) /\
  (exists g1 g2 g3 evs',
     ttp_write g u1 true = Ret (cut_len u1, g1, [pr_info "ttp: using CLOCK_MONOTONIC"]) /\
     ttp_write g1 us true = Ret (cut_len us, g2, [pr_info "ttp: Armed"]) /\
     ttp_emit g2 env id = Ret (g3, []) /\
     shard g3 (smp_processor_id env) = Some (Storage (eventcount stor + 1) (Some evs')) /\
     evs' !! Z.to_nat (eventcount stor) = Some (make_event id (ktime_mono env))).
Proof.
  intros Hwf Hdis H0 H1 Hst Hc Hlk Hev Hroom.
  destruct (wf_shard _ _ _ _ Hwf Hlk) as (evs0 & Hev0 & Hlen & Hcnt).
  rewrite Hev in Hev0. injection Hev0 as <-.
  assert (Hsel : forall clock, clock = CLOCK_REALTIME \/ clock = CLOCK_MONOTONIC ->
    exists g3 evs',
      ttp_write (set_clock clock g) us true =
        Ret (cut_len us, set_enabled true (set_clock clock g), [pr_info "ttp: Armed"]) /\
      ttp_emit (set_enabled true (set_clock clock g)) env id = Ret (g3, []) /\
      shard g3 (smp_processor_id env) = Some (Storage (eventcount stor + 1) (Some evs')) /\
      evs' !! Z.to_nat (eventcount stor) = Some (stamped clock (id, env))).
  { intros clock Hclock.
    assert (Hwf2 : wf (set_enabled true (set_clock clock g)) tbl).
    { apply wf_set_enabled, wf_set_clock; assumption. }
    eexists _, _. split.
    { rewrite (ttp_write_start (set_clock clock g) tbl us (wf_storage _ _ Hwf) Hst).
      simpl. rewrite Hdis. reflexivity. }
    split.
    { apply (ttp_emit_store _ tbl env id stor evs Hwf2); try assumption; reflexivity. }
    split.
    { unfold shard. simpl. apply list_lookup_insert_eq. eapply lookup_lt_Some. exact Hlk. }
    simpl. apply list_lookup_insert_eq. lia. }
  split.
  - destruct (Hsel CLOCK_REALTIME (or_introl eq_refl)) as (g3 & evs' & Hw & He & Hsh & Hslot).
    exists (set_clock CLOCK_REALTIME g), (set_enabled true (set_clock CLOCK_REALTIME g)), g3, evs'.
    split_and!; try assumption.
    rewrite (ttp_write_clock0 g tbl u0 (wf_storage _ _ Hwf) H0), Hdis. reflexivity.
  - destruct (Hsel CLOCK_MONOTONIC (or_intror eq_refl)) as (g3 & evs' & Hw & He & Hsh & Hslot).
    exists (set_clock CLOCK_MONOTONIC g), (set_enabled true (set_clock CLOCK_MONOTONIC g)), g3, evs'.
    split_and!; try assumption.
    rewrite (ttp_write_clock1 g tbl u1 (wf_storage _ _ Hwf) H1), Hdis. reflexivity.
Qed.

Lemma demo_globals_wf : wf demo_globals [Storage 0 (Some [zero_event; zero_event])].
Proof.
  constructor; simpl; try reflexivity; try lia.
  - repeat constructor. exists [zero_event; zero_event]. simpl. repeat split; lia.
  - left. reflexivity.
Qed.

Lemma clock_command_selects_stamp_witness :
  (exists g1 g2 g3 evs',
     ttp_write demo_globals (lit "0" ++ [LF]) true =
       Ret (2, g1, [pr_info "ttp: using CLOCK_REALTIME"]) /\
     ttp_write g1 (lit "start") true = Ret (5, g2, [pr_info "ttp: Armed"]) /\
     ttp_emit g2 (EmitEnv 0 (Timespec 7 1) (Timespec 3 2)) 42 = Ret (g3, []) /\
     shard g3 0 = Some (Storage 1 (Some evs')) /\
     evs' !! 0%nat = Some (Event 42 7000000001)) /\
  (exists g1 g2 g3 evs',
     ttp_write demo_globals (lit "1" ++ [LF]) true =
       Ret (2, g1, [pr_info "ttp: using CLOCK_MONOTONIC"]) /\
     ttp_write g1 (lit "start") true = Ret (5, g2, [pr_info "ttp: Armed"]) /\
     ttp_emit g2 (EmitEnv 0 (Timespec 7 1) (Timespec 3 2)) 42 = Ret (g3, []) /\
     shard g3 0 = Some (Storage 1 (Some evs')) /\
     evs' !! 0%nat = Some (Event 42 3000000002)).
Proof.
  apply (clock_command_selects_stamp demo_globals _ _ _ _
           (EmitEnv 0 (Timespec 7 1) (Timespec 3 2)) 42
           (Storage 0 (Some [zero_event; zero_event])) [zero_event; zero_event]
           demo_globals_wf eq_refl
           (command_newline "0") (command_newline "1") (command_bare "start")).
  - simpl. lia.
  - reflexivity.
  - reflexivity.
  - simpl. lia.
Defined.

(** X9: the clock commands are refused while armed: [0] and [1] return
    [-EBUSY] and change nothing, so one capture uses one clock. *)
Theorem clock_command_refused_while_armed g tbl (u0 u1 : list ascii) :
  storage g = Some tbl -> ttp_enabled g = true ->
  is_command "0" u0 -> is_command "1" u1 ->
  ttp_write g u0 true = Ret (- EBUSY, g, []) /\
  ttp_write g u1 true = Ret (- EBUSY, g, []).
Proof.
  intros Hs Hen H0 H1.
  rewrite (ttp_write_clock0 g tbl u0 Hs H0), (ttp_write_clock1 g tbl u1 Hs H1), Hen.
  split; reflexivity.
Qed.

Lemma clock_command_refused_while_armed_witness :
  ttp_write full_globals (lit "0") true = Ret (- EBUSY, full_globals, []) /\
  ttp_write full_globals (lit "1" ++ [LF]) true = Ret (- EBUSY, full_globals, []).
Proof.
  apply (clock_command_refused_while_armed full_globals _ _ _ eq_refl eq_refl
           (command_bare "0") (command_newline "1")).
Defined.

(** X11: after [stop], calls of [ttp_emit] on any cpu record nothing, log
    nothing and change no global, however many are made. *)
Theorem emit_after_stop_records_nothing g tbl (u : list ascii)
    (calls : list (Z * emit_env)) :
  storage g = Some tbl -> is_command "stop" u ->
  exists g1,
    ttp_write g u true = Ret (cut_len u, g1, [pr_info "ttp: Stopped"]) /\
    storage g1 = storage g /\
    emit_all g1 calls = Ret (g1, []).
Proof.
  intros Hs Hcmd. exists (set_enabled false g). split_and!.
  - apply (ttp_write_stop g tbl u Hs Hcmd).
  - reflexivity.
  - apply emit_all_disarmed. reflexivity.
Qed.

Lemma emit_after_stop_records_nothing_witness :
  exists g1,
    ttp_write full_globals (lit "stop" ++ [LF]) true =
      Ret (5, g1, [pr_info "ttp: Stopped"]) /\
    storage g1 = storage full_globals /\
    emit_all g1 [(9, at_time 30); (11, at_time 40)] = Ret (g1, []).
Proof.
  apply (emit_after_stop_records_nothing full_globals _ _ _ eq_refl (command_newline "stop")).
Defined.

(** ** Capture in several sessions *)

(** Room for all the calls is room before each of them. *)
Lemma room_under_capacity (c : Z) (calls : list (Z * emit_env)) :
  forall g tbl stor,
    wf g tbl -> ttp_enabled g = true -> 0 <= c ->
    tbl !! Z.to_nat c = Some stor ->
    Forall (fun call => smp_processor_id (snd call) = c) calls ->
    eventcount stor + Z.of_nat (length calls) <= max_events g ->
    under_capacity g c calls.
Proof.
  induction calls as [| [id env] calls IH]; intros g tbl stor Hwf Hen Hc Hlk Hall Hroom.
  - exact I.
  - apply Forall_cons in Hall as [Hcpu Hall]. simpl in Hcpu. simpl length in Hroom.
    destruct (wf_shard _ _ _ _ Hwf Hlk) as (evs & Hev & Hlen & Hcnt).
    assert (Hstep := ttp_emit_store g tbl env id stor evs Hwf Hen).
    rewrite Hcpu in Hstep. specialize (Hstep Hc Hlk Hev ltac:(lia)).
    simpl. split.
    + exists stor. split; [| lia].
      unfold shard. rewrite (wf_storage _ _ Hwf). exact Hlk.
    + rewrite Hstep.
      eapply (IH _ _ _ (wf_store g tbl (Z.to_nat c) _ Hwf _) Hen Hc); [| exact Hall |].
      * apply list_lookup_insert_eq. eapply lookup_lt_Some. exact Hlk.
      * simpl. lia.
  Unshelve.
  exists (<[Z.to_nat (eventcount stor) := stamped (ttp_clock g) (id, env)]> evs).
  simpl. rewrite length_insert. split_and!; try reflexivity; lia.
Qed.

Lemma recorded_of_appended (stor : ttp_storage) (evs new : list event) :
  events stor = Some evs -> 0 <= eventcount stor ->
  (Z.to_nat (eventcount stor) + length new <= length evs)%nat ->
  recorded_of
    (Storage (eventcount stor + Z.of_nat (length new))
       (Some (take (Z.to_nat (eventcount stor)) evs ++ new ++
              drop (Z.to_nat (eventcount stor) + length new) evs))) =
  recorded_of stor ++ new.
Proof.
  intros Hev Hc Hlen. unfold recorded_of. simpl. rewrite Hev. simpl.
  rewrite app_assoc. apply take_app_length'.
  rewrite length_app, length_take. lia.
Qed.

(** Calls on one cpu for which the shard has room are all recorded, in
    call order, behind what the shard held. *)
Lemma emit_all_recorded (c : Z) (calls : list (Z * emit_env)) g tbl stor :
  wf g tbl -> ttp_enabled g = true -> 0 <= c ->
  tbl !! Z.to_nat c = Some stor ->
  Forall (fun call => smp_processor_id (snd call) = c) calls ->
  eventcount stor + Z.of_nat (length calls) <= max_events g ->
  exists g' tbl' stor',
    emit_all g calls = Ret (g', []) /\ wf g' tbl' /\ ttp_enabled g' = true /\
    ttp_clock g' = ttp_clock g /\ max_events g' = max_events g /\
    tbl' !! Z.to_nat c = Some stor' /\
    eventcount stor' = eventcount stor + Z.of_nat (length calls) /\
    recorded_of stor' = recorded_of stor ++ recorded (ttp_clock g) calls.
Proof.
  intros Hwf Hen Hc Hlk Hall Hroom.
  destruct (wf_shard _ _ _ _ Hwf Hlk) as (evs & Hev & Hlen & Hcnt).
  pose proof (room_under_capacity c calls g tbl stor Hwf Hen Hc Hlk Hall Hroom) as Hcap.
  destruct (emit_all_appends c calls g tbl stor evs Hwf Hen Hc Hlk Hev Hall Hcap)
    as (g' & tbl' & evs' & Hrun & Hwf' & Hen' & Hcl' & Hmax' & Hlk' & Hevs').
  eexists g', tbl', _. split_and!; try eassumption; [reflexivity |].
  rewrite Hevs'. rewrite <- (recorded_of_appended stor evs _ Hev) at 1.
  - unfold recorded. rewrite length_map. reflexivity.
  - lia.
  - unfold recorded. rewrite length_map. lia.
Qed.

(** X12: [stop] and [start] between two batches of calls reset nothing:
    with room for both batches, the shard afterwards holds what it held
    before, then the records of the first batch, then those of the second,
    in call order. *)
Theorem restart_appends_behind g tbl (c : Z) stor
    (calls1 calls2 : list (Z * emit_env)) (ustop ustart : list ascii) :
  wf g tbl -> ttp_enabled g = true -> 0 <= c ->
  tbl !! Z.to_nat c = Some stor ->
  Forall (fun call => smp_processor_id (snd call) = c) (calls1 ++ calls2) ->
  eventcount stor + Z.of_nat (length (calls1 ++ calls2)) <= max_events g ->
  is_command "stop" ustop -> is_command "start" ustart ->
  exists ga gb gc gd stor',
    emit_all g calls1 = Ret (ga, []) /\
    ttp_write ga ustop true = Ret (cut_len ustop, gb, [pr_info "ttp: Stopped"]) /\
    ttp_write gb ustart true = Ret (cut_len ustart, gc, [pr_info "ttp: Armed"]) /\
    emit_all gc calls2 = Ret (gd, []) /\
    shard gd c = Some stor' /\
    recorded_of stor' = recorded_of stor ++ recorded (ttp_clock g) (calls1 ++ calls2).
Proof.
  intros Hwf Hen Hc Hlk Hall Hroom Hstop Hstart.
  apply Forall_app in Hall as [Hall1 Hall2]. rewrite length_app in Hroom.
  destruct (emit_all_recorded c calls1 g tbl stor Hwf Hen Hc Hlk Hall1 ltac:(lia))
    as (ga & tbla & stora & Hrun1 & Hwfa & Hena & Hcla & Hmaxa & Hlka & Hcnta & Hreca).
  set (gb := set_enabled false ga). set (gc := set_enabled true gb).
  assert (Hwfc : wf gc tbla) by (apply wf_set_enabled, wf_set_enabled; exact Hwfa).
  destruct (emit_all_recorded c calls2 gc tbla stora Hwfc eq_refl Hc Hlka Hall2)
    as (gd & tbld & stord & Hrun2 & Hwfd & Hend & Hcld & Hmaxd & Hlkd & Hcntd & Hrecd).
  { simpl. lia. }
  exists ga, gb, gc, gd, stord. split_and!; try assumption.
  - apply (ttp_write_stop ga tbla ustop (wf_storage _ _ Hwfa) Hstop).
  - rewrite (ttp_write_start gb tbla ustart (wf_storage _ _ Hwfa) Hstart). reflexivity.
  - unfold shard. rewrite (wf_storage _ _ Hwfd). exact Hlkd.
  - rewrite Hrecd, Hreca. simpl ttp_clock. rewrite Hcla.
    unfold recorded. rewrite map_app, app_assoc. reflexivity.
Qed.

Lemma restart_appends_behind_witness :
  exists ga gb gc gd stor',
    emit_all (set_enabled true demo_globals) [(5, at_time 10)] = Ret (ga, []) /\
    ttp_write ga (lit "stop" ++ [LF]) true = Ret (5, gb, [pr_info "ttp: Stopped"]) /\
    ttp_write gb (lit "start" ++ [LF]) true = Ret (6, gc, [pr_info "ttp: Armed"]) /\
    emit_all gc [(7, at_time 20)] = Ret (gd, []) /\
    shard gd 0 = Some stor' /\
    recorded_of stor' = [] ++ [Event 5 1000000010; Event 7 1000000020].
Proof.
  apply (restart_appends_behind (set_enabled true demo_globals) _ 0
           (Storage 0 (Some [zero_event; zero_event]))
           [(5, at_time 10)] [(7, at_time 20)]
           (lit "stop" ++ [LF]) (lit "start" ++ [LF]) demo_armed_wf eq_refl).
  - lia.
  - reflexivity.
  - repeat constructor.
  - simpl. lia.
  - apply command_newline.
  - apply command_newline.
Defined.

(** ** ttp_read: what a read can return *)

Lemma ttp_read_again_output g tbl (copy_ok : bool) (fuel : nat) :
  forall fp r,
    ttp_read_again fuel g tbl fp copy_ok = Ret r ->
    (length (rd_out r) <= 43)%nat /\
    (rd_ret r = Z.of_nat (length (rd_out r)) \/ (rd_ret r < 0 /\ rd_out r = [])) /\
    (rd_out r <> [] -> copy_ok = true /\ is_Some (rd_slot r)).
Proof.
  induction fuel as [| fuel IH]; intros fp r; simpl; [discriminate |].
  destruct (fpos_cpu fp =? ttp_cpus g).
  { intros H. injection H as <-. simpl. split_and!; [lia | left; reflexivity | congruence]. }
  destruct (tbl !! Z.to_nat (fpos_cpu fp)) as [stor |]; simpl; [| discriminate].
  destruct (fpos_event fp =? eventcount stor); [apply IH |].
  destruct (events stor) as [evs |]; simpl; [| discriminate].
  destruct (evs !! Z.to_nat (fpos_event fp)) as [ev |]; simpl; [| discriminate].
  destruct (snprintf_line (ev_id ev) (fpos_cpu fp) (ev_abstime ev)) as [Hsn Htk].
  unfold snprintf in Hsn. injection Hsn as Hsn. simpl in Hsn, Htk.
  pose proof (format_line_length (ev_id ev) (fpos_cpu fp) (ev_abstime ev)) as Hlen.
  destruct copy_ok; intros H; injection H as <-; simpl.
  - rewrite Hsn, Htk. split_and!; [lia | left; reflexivity |].
    intros _. split; [reflexivity | eexists; reflexivity].
  - split_and!; [lia | right; split; [unfold EINVAL; lia | reflexivity] | congruence].
Qed.

(** X13: a read never hands the caller more than it has room for: at most
    43 bytes are output, only when the buffer holds 128 or more; a
    non-negative return value is the number of bytes output, and bytes
    are output only for a record that was formatted and copied. *)
Theorem read_output_fits g fp size (copy_ok : bool) r :
  ttp_read g fp size copy_ok = Ret r ->
  (length (rd_out r) <= 43)%nat /\
  (rd_out r <> [] -> TMP_SIZE <= size /\ copy_ok = true /\ is_Some (rd_slot r)) /\
  (rd_ret r = Z.of_nat (length (rd_out r)) \/ (rd_ret r < 0 /\ rd_out r = [])).
Proof.
  unfold ttp_read. destruct (storage g) as [tbl |].
  2: { intros H. injection H as <-. simpl.
       split_and!; [lia | congruence | right; split; [unfold ENOMEM; lia | reflexivity]]. }
  destruct (ttp_enabled g).
  { intros H. injection H as <-. simpl.
    split_and!; [lia | congruence | right; split; [unfold EBUSY; lia | reflexivity]]. }
  destruct (Z.ltb_spec size TMP_SIZE) as [Hlt | Hge].
  { intros H. injection H as <-. simpl.
    split_and!; [lia | congruence | right; split; [unfold ENOSPC; lia | reflexivity]]. }
  intros H. destruct (ttp_read_again_output g tbl copy_ok _ fp r H) as (H1 & H2 & H3).
  split_and!; [exact H1 | | exact H2].
  intros Hne. destruct (H3 Hne) as [Hok Hslot]. split_and!; assumption.
Qed.

Lemma read_output_fits_witness :
  (length (lit "5,0,1000000010" ++ [LF]) <= 43)%nat /\
  (lit "5,0,1000000010" ++ [LF] <> [] ->
     TMP_SIZE <= 128 /\ true = true /\ is_Some (Some (0, 0))) /\
  (15 = Z.of_nat (length (lit "5,0,1000000010" ++ [LF])) \/
   (15 < 0 /\ lit "5,0,1000000010" ++ [LF] = [])).
Proof.
  apply (read_output_fits stopped_globals (Fpos 0 0) 128 true
           (ReadResult 15 (lit "5,0,1000000010" ++ [LF]) (Fpos 0 1) (Some (0, 0)))).
  reflexivity.
Defined.

(** With fuel for the shards ahead of the cursor the retry loop gives its
    answer, and more fuel changes nothing. *)
Lemma ttp_read_again_fuel g tbl (copy_ok : bool) :
  wf g tbl ->
  forall (fuel : nat) fp,
    0 <= fpos_cpu fp -> ttp_cpus g - fpos_cpu fp < Z.of_nat fuel -> (1 <= fuel)%nat ->
    ttp_read_again fuel g tbl fp copy_ok <> Timeout /\
    forall more : nat,
      ttp_read_again (fuel + more) g tbl fp copy_ok =
      ttp_read_again fuel g tbl fp copy_ok.
Proof.
  intros Hwf. pose proof (wf_cpus _ _ Hwf) as Hcpus.
  pose proof (wf_cpus_u32 _ _ Hwf) as Hc32.
  induction fuel as [| fuel IH]; intros [c e] Hc Hfuel Hpos; [lia |].
  simpl in Hc, Hfuel. cbn [Nat.add ttp_read_again fpos_cpu fpos_event].
  destruct (Z.eqb_spec c (ttp_cpus g)) as [Heq | Hne].
  { split; [discriminate | reflexivity]. }
  destruct (tbl !! Z.to_nat c) as [stor |] eqn:Hlk; cbn [access obind].
  2: { split; [discriminate | reflexivity]. }
  pose proof (lookup_lt_Some _ _ _ Hlk) as Hlt.
  destruct (fpos_event (Fpos c e) =? eventcount stor) eqn:Hcount; simpl in Hcount;
    rewrite Hcount.
  - rewrite u32_small by lia. apply IH; simpl; lia.
  - destruct (events stor) as [evs |]; cbn [access obind];
      [| split; [discriminate | reflexivity]].
    destruct (evs !! Z.to_nat e) as [ev |]; cbn [access obind];
      [| split; [discriminate | reflexivity]].
    destruct (snprintf _ _) as [tmp ret]. destruct copy_ok; split; (discriminate || reflexivity).
Qed.

(** X14: the retry loop of [ttp_read] ends: on a loaded module, from any
    cursor, a read gives its answer within [ttp_cpus + 1] jumps to
    [again]; the fuel of the model is never used up, and more fuel changes
    nothing. *)
Theorem read_loop_terminates g tbl fp size (copy_ok : bool) :
  wf g tbl -> 0 <= fpos_cpu fp ->
  ttp_read g fp size copy_ok <> Timeout /\
  forall more : nat,
    ttp_read_again (read_fuel g + more) g tbl fp copy_ok =
    ttp_read_again (read_fuel g) g tbl fp copy_ok.
Proof.
  intros Hwf Hc.
  destruct (ttp_read_again_fuel g tbl copy_ok Hwf (read_fuel g) fp Hc) as [Hno Hmore].
  { unfold read_fuel. pose proof (wf_cpus _ _ Hwf). lia. }
  { unfold read_fuel. lia. }
  split; [| exact Hmore].
  unfold ttp_read. rewrite (wf_storage _ _ Hwf).
  destruct (ttp_enabled g); [discriminate |].
  destruct (size <? TMP_SIZE); [discriminate | exact Hno].
Qed.

Lemma read_loop_terminates_witness :
  ttp_read stopped_globals (Fpos 0 2) 128 true <> Timeout /\
  forall more : nat,
    ttp_read_again (3 + more) stopped_globals
      [Storage 2 (Some [Event 5 1000000010; Event 7 1000000020])] (Fpos 0 2) true =
    ttp_read_again 3 stopped_globals
      [Storage 2 (Some [Event 5 1000000010; Event 7 1000000020])] (Fpos 0 2) true.
Proof.
  apply (read_loop_terminates stopped_globals _ (Fpos 0 2) 128 true stopped_globals_wf).
  simpl. lia.
Defined.

(** ** Capture and drain together *)

Lemma shard_lines_recorded (c : nat) (stor : ttp_storage) :
  shard_lines c stor =
    map (fun ev => format_line (ev_id ev) (Z.of_nat c) (ev_abstime ev)) (recorded_of stor).
Proof. reflexivity. Qed.

Lemma lines_from_empty (tbl : list ttp_storage) :
  forall c, Forall (fun stor => eventcount stor = 0) tbl -> lines_from c tbl = [].
Proof.
  induction tbl as [| stor tbl IH]; intros c Hall; [reflexivity |].
  apply Forall_cons in Hall as [H0 Hall]. simpl. rewrite (IH _ Hall).
  unfold shard_lines. rewrite H0. rewrite app_nil_r. reflexivity.
Qed.

Lemma lines_from_single (tbl : list ttp_storage) :
  forall (k i : nat) stor,
    Forall (fun s => eventcount s = 0) tbl -> (i < length tbl)%nat ->
    lines_from k (<[i := stor]> tbl) = shard_lines (k + i) stor.
Proof.
  induction tbl as [| x tbl IH]; intros k i stor Hall Hi; simpl in Hi; [lia |].
  apply Forall_cons in Hall as [Hx Hall]. destruct i as [| i]; simpl.
  - rewrite (lines_from_empty _ _ Hall), app_nil_r, Nat.add_0_r. reflexivity.
  - rewrite (IH (S k) i stor Hall) by lia.
    unfold shard_lines at 1. rewrite Hx. simpl.
    replace (S (k + i))%nat with (k + S i)%nat by lia. reflexivity.
Qed.

(** Calls on one cpu leave the other shards alone. *)
Lemma emit_all_frame (c : Z) (calls : list (Z * emit_env)) :
  forall g tbl g' log,
    wf g tbl -> 0 <= c ->
    Forall (fun call => smp_processor_id (snd call) = c) calls ->
    emit_all g calls = Ret (g', log) ->
    exists tbl', wf g' tbl' /\ length tbl' = length tbl /\
      forall c' : nat, c' <> Z.to_nat c -> tbl' !! c' = tbl !! c'.
Proof.
  induction calls as [| [id env] calls IH]; intros g tbl g' log Hwf Hc Hall Hrun.
  - injection Hrun as <- <-. exists tbl. split_and!; [exact Hwf | reflexivity | reflexivity].
  - apply Forall_cons in Hall as [Hcpu Hall]. simpl in Hcpu.
    destruct (ttp_emit_wf g tbl env id Hwf ltac:(lia))
      as (g1 & tbl1 & log1 & Hstep & Hwf1 & _ & _ & _ & Hcpus & Hframe & _).
    simpl in Hrun. rewrite Hstep in Hrun. simpl in Hrun.
    destruct (emit_all g1 calls) as [[g2 log2] | |] eqn:Hrest; simpl in Hrun; try discriminate.
    injection Hrun as <- <-.
    destruct (IH g1 tbl1 g2 log2 Hwf1 Hc Hall Hrest) as (tbl' & Hwf' & Hlen & Hfr).
    exists tbl'. split_and!; [exact Hwf' | |].
    + pose proof (wf_cpus _ _ Hwf). pose proof (wf_cpus _ _ Hwf1). lia.
    + intros c' Hne. rewrite Hfr by exact Hne. apply Hframe. congruence.
Qed.

(** X15: after [reset] nothing is left to drain: a session opened then
    gets zero bytes from its first read on, however often it reads. *)
Theorem reset_then_drain_is_empty g tbl (u : list ascii) (sizes : list Z) :
  wf g tbl -> ttp_enabled g = false -> is_command "reset" u ->
  Forall (fun size => TMP_SIZE <= size) sizes ->
  exists g' rs,
    ttp_write g u true = Ret (cut_len u, g', [pr_info "ttp: Reset event storage"]) /\
    read_trace (Fpos 0 0) (map (fun size => (g', size, true)) sizes) = Ret rs /\
    map rd_out rs = replicate (length sizes) [] /\
    map rd_ret rs = replicate (length sizes) 0.
Proof.
  intros Hwf Hdis Hcmd Hsizes.
  set (g' := set_storage (Some (map reset_shard tbl)) g).
  assert (Hwf' : wf g' (map reset_shard tbl)) by (apply wf_reset; exact Hwf).
  destruct (drain_from g' _ sizes Hwf' Hdis Hsizes (Fpos 0 0) (cursor_ok_start _ _ Hwf'))
    as (rs & Hrun & Hout & Hret).
  assert (Hnone : lines_after (map reset_shard tbl) (Fpos 0 0) = []).
  { rewrite lines_after_start. apply lines_from_empty.
    apply Forall_fmap, Forall_forall. reflexivity. }
  rewrite Hnone, take_nil in Hout. simpl in Hout. rewrite Nat.sub_0_r in Hout.
  exists g', rs. split_and!; try assumption.
  - rewrite (ttp_write_reset g tbl u (wf_storage _ _ Hwf) Hcmd), Hdis.
    rewrite (reset_loop_all g tbl Hwf). reflexivity.
  - rewrite Hret, Hout. rewrite fmap_replicate. reflexivity.
Qed.

Lemma reset_then_drain_is_empty_witness :
  exists g' rs,
    ttp_write stopped_globals (lit "reset" ++ [LF]) true =
      Ret (6, g', [pr_info "ttp: Reset event storage"]) /\
    read_trace (Fpos 0 0) [(g', 128, true); (g', 128, true)] = Ret rs /\
    map rd_out rs = [[]; []] /\
    map rd_ret rs = [0; 0].
Proof.
  apply (reset_then_drain_is_empty stopped_globals _ (lit "reset" ++ [LF]) [128; 128]
           stopped_globals_wf eq_refl (command_newline "reset")).
  repeat constructor; unfold TMP_SIZE; lia.
Defined.

(** X16: end to end. On a loaded, armed module with empty shards, calls
    made on one cpu within the capacity, then [stop], then a drain: the
    reads return one line per call, in call order, each with the id of the
    call, the number of the cpu and the time stamp taken at the call, and
    zero bytes afterwards. *)
Theorem emit_stop_drain g tbl (c : Z) stor (calls : list (Z * emit_env))
    (ustop : list ascii) (sizes : list Z) :
  wf g tbl -> ttp_enabled g = true ->
  Forall (fun s => eventcount s = 0) tbl ->
  0 <= c -> tbl !! Z.to_nat c = Some stor ->
  Forall (fun call => smp_processor_id (snd call) = c) calls ->
  Z.of_nat (length calls) <= max_events g ->
  is_command "stop" ustop ->
  Forall (fun size => TMP_SIZE <= size) sizes ->
  exists g1 g2 rs,
    emit_all g calls = Ret (g1, []) /\
    ttp_write g1 ustop true = Ret (cut_len ustop, g2, [pr_info "ttp: Stopped"]) /\
    read_trace (Fpos 0 0) (map (fun size => (g2, size, true)) sizes) = Ret rs /\
    map rd_out rs =
      take (length sizes)
        (map (fun call => format_line (fst call) c
                            (ev_abstime (stamped (ttp_clock g) call))) calls) ++
      replicate (length sizes - length calls) [] /\
    map rd_ret rs = map (fun out => Z.of_nat (length out)) (map rd_out rs).
Proof.
  intros Hwf Hen Hempty Hc Hlk Hall Hroom Hstop Hsizes.
  assert (Hzero : eventcount stor = 0).
  { eapply Forall_lookup_1 in Hempty; [exact Hempty | exact Hlk]. }
  destruct (emit_all_recorded c calls g tbl stor Hwf Hen Hc Hlk Hall ltac:(lia))
    as (g1 & tbl1 & stor1 & Hrun & Hwf1 & Hen1 & Hcl1 & Hmax1 & Hlk1 & Hcnt1 & Hrec1).
  destruct (emit_all_frame c calls g tbl g1 [] Hwf Hc Hall Hrun)
    as (tbl1' & Hwf1' & Hlen1 & Hframe).
  assert (tbl1' = tbl1).
  { pose proof (wf_storage _ _ Hwf1) as E1. pose proof (wf_storage _ _ Hwf1') as E2.
    congruence. }
  subst tbl1'.
  assert (Htbl1 : tbl1 = <[Z.to_nat c := stor1]> tbl).
  { apply list_eq. intros i. destruct (decide (i = Z.to_nat c)) as [-> | Hne].
    - rewrite Hlk1. symmetry. apply list_lookup_insert_eq. eapply lookup_lt_Some. exact Hlk.
    - rewrite list_lookup_insert_ne by congruence. apply Hframe. exact Hne. }
  set (g2 := set_enabled false g1).
  assert (Hwf2 : wf g2 tbl1) by (apply wf_set_enabled; exact Hwf1).
  destruct (drain_from g2 tbl1 sizes Hwf2 eq_refl Hsizes (Fpos 0 0) (cursor_ok_start _ _ Hwf2))
    as (rs & Hdrain & Hout & Hret).
  assert (Hlines : lines_after tbl1 (Fpos 0 0) =
                   map (fun call => format_line (fst call) c
                                      (ev_abstime (stamped (ttp_clock g) call))) calls).
  { rewrite lines_after_start. unfold drain_lines. rewrite Htbl1.
    rewrite (lines_from_single tbl 0 (Z.to_nat c) stor1 Hempty)
      by (eapply lookup_lt_Some; exact Hlk).
    rewrite shard_lines_recorded, Hrec1. unfold recorded_of. rewrite Hzero. simpl.
    unfold recorded. rewrite map_map.
    rewrite Z2Nat.id by lia. reflexivity. }
  rewrite Hlines in Hout. rewrite length_map in Hout.
  exists g1, g2, rs. split_and!; try assumption.
  apply (ttp_write_stop g1 tbl1 ustop (wf_storage _ _ Hwf1) Hstop).
Qed.

Lemma emit_stop_drain_witness :
  exists g1 g2 rs,
    emit_all (set_enabled true demo_globals) [(5, at_time 10); (7, at_time 20)]
      = Ret (g1, []) /\
    ttp_write g1 (lit "stop" ++ [LF]) true = Ret (5, g2, [pr_info "ttp: Stopped"]) /\
    read_trace (Fpos 0 0) [(g2, 128, true); (g2, 128, true); (g2, 128, true)] = Ret rs /\
    map rd_out rs =
      [lit "5,0,1000000010" ++ [LF]; lit "7,0,1000000020" ++ [LF]; []] /\
    map rd_ret rs = map (fun out => Z.of_nat (length out)) (map rd_out rs).
Proof.
  apply (emit_stop_drain (set_enabled true demo_globals) _ 0
           (Storage 0 (Some [zero_event; zero_event]))
           [(5, at_time 10); (7, at_time 20)] (lit "stop" ++ [LF]) [128; 128; 128]
           demo_armed_wf eq_refl).
  - repeat constructor.
  - lia.
  - reflexivity.
  - repeat constructor.
  - simpl. lia.
  - apply command_newline.
  - repeat constructor; unfold TMP_SIZE; lia.
Defined.

(** X17: a failed user copy costs exactly its own line. In a drain of a
    disarmed, undisturbed module where any of the copies may fail, the
    i-th read always deals with the i-th line: it returns the line and its
    length if its copy succeeds and [-EINVAL] with no output if not, and
    reads behind the last line return zero bytes. *)
Theorem drain_with_copy_failures g tbl (reqs : list (Z * bool)) :
  wf g tbl -> ttp_enabled g = false ->
  Forall (fun req => TMP_SIZE <= fst req) reqs ->
  exists rs,
    read_trace (Fpos 0 0) (map (fun req => (g, fst req, snd req)) reqs) = Ret rs /\
    map (fun r => (rd_ret r, rd_out r)) rs =
      zip_with read_answer (map snd reqs)
        (map Some (take (length reqs) (drain_lines tbl)) ++
         replicate (length reqs - length (drain_lines tbl)) None).
Proof.
  intros Hwf Hdis Hreqs. rewrite <- lines_after_start.
  pose proof (cursor_ok_start _ _ Hwf) as Hcur. revert Hcur.
  generalize (Fpos 0 0) as fp.
  induction Hreqs as [| [size ok] reqs Hsize Hreqs IH]; intros fp Hcur.
  - exists []. split; reflexivity.
  - simpl in Hsize.
    destruct (ttp_read_next g tbl fp size ok Hwf Hdis Hsize Hcur)
      as (r & Hrd & Hcur' & Hnext).
    destruct (IH (rd_fpos r) Hcur') as (rs & Hrun & Hans).
    exists (r :: rs). simpl read_trace. rewrite Hrd. simpl. rewrite Hrun. simpl.
    split; [reflexivity |]. rewrite Hans.
    destruct (lines_after tbl fp) as [| line rest].
    + destruct Hnext as (Hr & Ho & Hl & _). rewrite Hr, Ho, Hl.
      rewrite !take_nil. simpl. rewrite !Nat.sub_0_r. reflexivity.
    + destruct Hnext as (Hr & Ho & Hl & _). rewrite Hr, Ho, Hl. simpl.
      destruct ok; reflexivity.
Qed.

Lemma drain_with_copy_failures_witness :
  exists rs,
    read_trace (Fpos 0 0)
      [(stopped_globals, 128, false); (stopped_globals, 128, true);
       (stopped_globals, 128, false)] = Ret rs /\
    map (fun r => (rd_ret r, rd_out r)) rs =
      [(- EINVAL, []); (15, lit "7,0,1000000020" ++ [LF]); (0, [])].
Proof.
  apply (drain_with_copy_failures stopped_globals _
           [(128, false); (128, true); (128, false)] stopped_globals_wf eq_refl).
  repeat constructor; unfold TMP_SIZE; simpl; lia.
Defined.

(** ** Reading a line back *)








(** ** How ttp_write matches a token *)

Lemma strim_plain (user : list ascii) :
  Forall plain user -> strim (user ++ [NUL]) = user ++ [NUL].
Proof.
  intros Hplain.
  assert (Hnn : Forall (fun c => c <> NUL) user).
  { eapply Forall_impl; [exact Hplain |]. intros c [_ H]. exact H. }
  unfold strim. rewrite (strlen_app user [] Hnn).
  destruct (Nat.eqb_spec (length user) 0) as [_ | Hne]; [reflexivity |].
  destruct (length user) as [| m] eqn:Hlen; [contradiction |].
  simpl strim_scan.
  destruct (lookup_lt_is_Some_2 user m) as [c Hc]; [lia |].
  assert (Hch : char_at (user ++ [NUL]) m = c).
  { unfold char_at. rewrite lookup_app_l by lia. rewrite Hc. reflexivity. }
  rewrite Hch. eapply Forall_lookup_1 in Hplain; [| exact Hc].
  destruct Hplain as [Hsp _]. rewrite Hsp.
  rewrite <- Hlen. replace (length user) with (length user + 0)%nat at 1 by lia.
  rewrite insert_app_r. reflexivity.
Qed.

(** Bounded by the length of the input, the comparison of [ttp_write] is a
    prefix test. *)
Lemma strncmp_is_prefix (user : list ascii) :
  Forall (fun c => c <> NUL) user ->
  forall ct, (strncmp (user ++ [NUL]) ct (length user) =? 0) = is_prefix user ct.
Proof.
  induction 1 as [| c user Hc Hall IH]; intros ct; [reflexivity |].
  simpl. unfold char_at. simpl.
  destruct ct as [| d ct]; simpl.
  - destruct (Ascii.eqb_spec c NUL) as [-> | _]; [contradiction |]. simpl.
    match goal with |- context [if ?b then -1 else 1] => destruct b end; reflexivity.
  - destruct (Ascii.eqb_spec c d) as [<- | Hne]; simpl.
    + destruct (Ascii.eqb_spec c NUL) as [-> | _]; [contradiction |]. apply IH.
    + match goal with |- context [if ?b then -1 else 1] => destruct b end; reflexivity.
Qed.

(** X19: how a plain token (no white space, no NUL, at most 31 bytes,
    written without a newline) is matched: because the comparison is
    bounded by the number of bytes written, the token acts as the first
    of [start], [stop], [reset], [0], [1] that it is a prefix of, with the
    same globals, log and error as that command, and it is refused with
    [-EINVAL] and no effect exactly when it is a prefix of none. *)
Theorem write_matches_prefixes g tbl (user : list ascii) :
  storage g = Some tbl -> Forall plain user ->
  Z.of_nat (length user) <= MAX_INPUT_SIZE ->
  match command_of user with
  | Some cmd => effect (ttp_write g user true) = effect (ttp_write g (lit cmd) true)
  | None => ttp_write g user true = Ret (- EINVAL, g, [])
  end.
Proof.
  intros Hs Hplain Hlen.
  assert (Hnn : Forall (fun c => c <> NUL) user).
  { eapply Forall_impl; [exact Hplain |]. intros c [_ H]. exact H. }
  assert (Hw : ttp_write g user true =
    if is_prefix user (lit "start") then
      if ttp_enabled g then Ret (- EBUSY, g, [])
      else Ret (cut_len user, set_enabled true g, [pr_info "ttp: Armed"])
    else if is_prefix user (lit "stop") then
      Ret (cut_len user, set_enabled false g, [pr_info "ttp: Stopped"])
    else if is_prefix user (lit "reset") then
      if ttp_enabled g then Ret (- EINVAL, g, [])
      else
        do tbl' <- reset_loop (Z.to_nat (ttp_cpus g)) 0 tbl;
        Ret (cut_len user, set_storage (Some tbl') g, [pr_info "ttp: Reset event storage"])
    else if is_prefix user (lit "0") then
      if ttp_enabled g then Ret (- EBUSY, g, [])
      else Ret (cut_len user, set_clock CLOCK_REALTIME g,
                [pr_info "ttp: using CLOCK_REALTIME"])
    else if is_prefix user (lit "1") then
      if ttp_enabled g then Ret (- EBUSY, g, [])
      else Ret (cut_len user, set_clock CLOCK_MONOTONIC g,
                [pr_info "ttp: using CLOCK_MONOTONIC"])
    else Ret (- EINVAL, g, [])).
  { unfold ttp_write. rewrite Hs. cbv zeta. fold (cut_len user).
    assert (Hcut : Z.to_nat (cut_len user) = length user)
      by (unfold cut_len, MAX_INPUT_SIZE in *; lia).
    rewrite Hcut, firstn_all. rewrite (strim_plain user Hplain).
    rewrite !(strncmp_is_prefix user Hnn). reflexivity. }
  assert (Hpos : forall u : list ascii, (cut_len u <? 0) = false).
  { intros u. apply Z.ltb_ge. unfold cut_len, MAX_INPUT_SIZE. lia. }
  unfold command_of. rewrite Hw.
  destruct (is_prefix user (lit "start")).
  { rewrite (ttp_write_start g tbl _ Hs (command_bare "start")).
    destruct (ttp_enabled g); [reflexivity |]. unfold effect. simpl. rewrite !Hpos. reflexivity. }
  destruct (is_prefix user (lit "stop")).
  { rewrite (ttp_write_stop g tbl _ Hs (command_bare "stop")).
    unfold effect. simpl. rewrite !Hpos. reflexivity. }
  destruct (is_prefix user (lit "reset")).
  { rewrite (ttp_write_reset g tbl _ Hs (command_bare "reset")).
    destruct (ttp_enabled g); [reflexivity |].
    destruct (reset_loop _ _ _); try reflexivity.
    unfold effect. simpl. rewrite !Hpos. reflexivity. }
  destruct (is_prefix user (lit "0")).
  { rewrite (ttp_write_clock0 g tbl _ Hs (command_bare "0")).
    destruct (ttp_enabled g); [reflexivity |]. unfold effect. simpl. rewrite !Hpos. reflexivity. }
  destruct (is_prefix user (lit "1")).
  { rewrite (ttp_write_clock1 g tbl _ Hs (command_bare "1")).
    destruct (ttp_enabled g); [reflexivity |]. unfold effect. simpl. rewrite !Hpos. reflexivity. }
  reflexivity.
Qed.

Lemma write_matches_prefixes_witness :
  effect (ttp_write demo_globals (lit "st") true) =
  effect (ttp_write demo_globals (lit "start") true).
Proof.
  apply (write_matches_prefixes demo_globals
           [Storage 0 (Some [zero_event; zero_event])] (lit "st") eq_refl).
  - repeat constructor; discriminate.
  - unfold MAX_INPUT_SIZE. simpl. lia.
Defined.

(** ** tsc_read_ref *)

Lemma tsc_read_ref_loop_spec (readings : nat -> tsc_sample) (n : nat) :
  forall (i : nat) (p : Z),
    (exists k, (i <= k < i + n)%nat /\ undisturbed (readings k) = true /\
               (forall j, (i <= j < k)%nat -> undisturbed (readings j) = false) /\
               tsc_read_ref_loop n i readings p =
                 (tsc_after (readings k), pm_reading (readings k))) \/
    ((forall j, (i <= j < i + n)%nat -> undisturbed (readings j) = false) /\
     tsc_read_ref_loop n i readings p =
       (ULLONG_MAX, match n with O => p | S m => pm_reading (readings (i + m)%nat) end)).
Proof.
  induction n as [| n IH]; intros i p.
  - right. split; [intros j Hj; lia | reflexivity].
  - simpl. fold (undisturbed (readings i)).
    destruct (undisturbed (readings i)) eqn:Hi.
    + left. exists i. split_and!; [lia | lia | exact Hi | intros j Hj; lia | reflexivity].
    + destruct (IH (S i) (pm_reading (readings i)))
        as [(k & Hk & Hu & Hbefore & Hres) | (Hall & Hres)].
      * left. exists k. split_and!; [lia | lia | exact Hu | | exact Hres].
        intros j Hj. destruct (decide (j = i)) as [-> | Hne]; [exact Hi |].
        apply Hbefore. lia.
      * right. split.
        { intros j Hj. destruct (decide (j = i)) as [-> | Hne]; [exact Hi |].
          apply Hall. lia. }
        rewrite Hres. destruct n as [| m]; [rewrite Nat.add_0_r; reflexivity |].
        replace (S i + m)%nat with (i + S m)%nat by lia. reflexivity.
Qed.

(** X20: [tsc_read_ref] makes at most five passes and returns the TSC
    value of the first pass that took fewer than 50000 cycles (in 64-bit
    wrap-around arithmetic), with [*p] holding the PM-timer value read in
    that same pass; if all five passes were disturbed it returns
    [ULLONG_MAX] and [*p] holds the value read in the last pass. The value
    [*p] had before the call is never kept. *)
Theorem tsc_read_ref_first_undisturbed (readings : nat -> tsc_sample) (p : Z) :
  (exists k, (k < 5)%nat /\ undisturbed (readings k) = true /\
             (forall j, (j < k)%nat -> undisturbed (readings j) = false) /\
             tsc_read_ref readings p =
               (tsc_after (readings k), pm_reading (readings k))) \/
  ((forall j, (j < 5)%nat -> undisturbed (readings j) = false) /\
   tsc_read_ref readings p = (ULLONG_MAX, pm_reading (readings 4%nat))).
Proof.
  unfold tsc_read_ref, MAX_RETRIES.
  destruct (tsc_read_ref_loop_spec readings 5 0 p)
    as [(k & Hk & Hu & Hbefore & Hres) | (Hall & Hres)].
  - left. exists k. split_and!; [lia | exact Hu | | exact Hres].
    intros j Hj. apply Hbefore. lia.
  - right. split; [| exact Hres]. intros j Hj. apply Hall. lia.
Qed.
